(** * trnnr / trnns: Tor relay nearest-neighbour search

    A shallow embedding of [trnnr.py] and [trnns.py].  Both scripts fetch the
    server descriptors of the Tor network into a dictionary keyed by relay
    fingerprint, turn every descriptor into one string, compute the
    Levenshtein distance between the string of a reference relay and the
    string of every relay, sort by distance and print the first rows.

    Python values are modelled as follows: [str] as [string] (characters
    are [ascii]), [int] as [Z], an optional integer as [option Z], a [dict]
    as an association list that keeps insertion order (dictionaries iterate
    in insertion order since Python 3.7, and the order of equal distances in
    the ranking depends on it), exceptions and output as a small
    error-and-trace monad. *)

From Stdlib Require Import List String Ascii ZArith Lia Bool Arith.
From Stdlib Require Import Sorting.Sorted Sorting.Permutation.
From Stdlib Require Import DecimalString DecimalZ.
Import ListNotations.

Open Scope string_scope.
Open Scope list_scope.

(** ** The edit distance of the [Levenshtein] package *)

Module Levenshtein.

Section Generic.

Variable A : Type.
Variable A_eqb : A -> A -> bool.

Definition min3 (a b c : nat) : nat := Nat.min a (Nat.min b c).

Definition subst_cost (c d : A) : nat := if A_eqb c d then 0 else 1.

(** An edit script turning [s] into [t], read from the left, with the number
    of single-character operations it uses: a character is kept, substituted
    by another one, deleted from [s], or inserted from [t]. *)
Inductive edit : list A -> list A -> nat -> Prop :=
| edit_nil : edit [] [] 0
| edit_keep c s t n : edit s t n -> edit (c :: s) (c :: t) n
| edit_subst c d s t n : edit s t n -> edit (c :: s) (d :: t) (S n)
| edit_delete c s t n : edit s t n -> edit (c :: s) t (S n)
| edit_insert d s t n : edit s t n -> edit s (d :: t) (S n).

(** The recurrence that defines the table, used as the reference the rows
    below are checked against. *)
Fixpoint lev_rec (s t : list A) {struct s} : nat :=
  match s with
  | [] => List.length t
  | c :: s' =>
      (fix inner (t : list A) : nat :=
         match t with
         | [] => S (List.length s')
         | d :: t' =>
             min3 (S (lev_rec s' t)) (S (inner t'))
                  (lev_rec s' t' + subst_cost c d)
         end) t
  end.

(** Modelled from the spec: the edit-distance primitive is the
    [Levenshtein.distance] function of the python-Levenshtein package, which
    is imported by both scripts and is not part of the sources.  The spec
    gives it as the minimum number of single-character insert, delete and
    substitute operations, computed by the classic O(N*M) dynamic programme
    over the two strings.  [base_row t] is the table row of the empty string:
    the distances from [] to every suffix of [t]; [next_row c t prev] is the
    row of [c :: s] computed from the row [prev] of [s]. *)
Fixpoint base_row (t : list A) : list nat :=
  match t with
  | [] => [0]
  | _ :: t' => S (List.length t') :: base_row t'
  end.

Fixpoint next_row (c : A) (t : list A) (prev : list nat) : list nat :=
  match t with
  | [] => [S (hd 0 prev)]
  | d :: t' =>
      let rest := next_row c t' (tl prev) in
      min3 (S (hd 0 prev)) (S (hd 0 rest))
           (hd 0 (tl prev) + subst_cost c d) :: rest
  end.

Fixpoint lev_row (s t : list A) : list nat :=
  match s with
  | [] => base_row t
  | c :: s' => next_row c t (lev_row s' t)
  end.

Definition distance_list (s t : list A) : nat := hd 0 (lev_row s t).

End Generic.

(** Modelled from the spec: [Levenshtein.distance(string1, string2)] of the
    python-Levenshtein package on two Python strings, the entry of the table
    for the two whole strings. *)
Definition distance (s1 s2 : string) : nat :=
  distance_list ascii Ascii.eqb (list_ascii_of_string s1)
                (list_ascii_of_string s2).

End Levenshtein.

(** ** The Python fragments both scripts rely on *)

Module Py.

(** Exceptions the modelled code can raise. *)
Inductive exn : Type :=
| TypeError
| ValueError
| KeyError.

Inductive result (A : Type) : Type :=
| Ok (a : A)
| Raise (e : exn).
Arguments Ok {A} a.
Arguments Raise {A} e.

(** The values handed to the [%] operator. *)
Inductive value : Type :=
| VStr (s : string)
| VInt (z : Z)
| VNone.

(** [str(int)]: base 10, a minus sign for negative numbers, no padding. *)
Definition str_of_int (z : Z) : string := NilZero.string_of_int (Z.to_int z).

Definition str (v : value) : string :=
  match v with
  | VStr s => s
  | VInt z => str_of_int z
  | VNone => "None"
  end.

Fixpoint spaces (n : nat) : string :=
  match n with
  | O => ""
  | S n' => String " " (spaces n')
  end.

(** A conversion with a minimum field width is right-justified. *)
Definition rjust (width : nat) (s : string) : string :=
  spaces (width - String.length s) ++ s.

Definition is_digit (c : ascii) : bool :=
  let n := nat_of_ascii c in (48 <=? n)%nat && (n <=? 57)%nat.

Definition digit_val (c : ascii) : nat := nat_of_ascii c - 48.

Definition map_result {A B : Type} (f : A -> B) (r : result A) : result B :=
  match r with
  | Ok a => Ok (f a)
  | Raise e => Raise e
  end.

(** [fmt % args] for the directives the scripts use: [%s], [%d] and an
    optional decimal field width.  [width = Some w] while a directive that
    started with [%] is being read.  Too few or too many arguments, or a
    non-integer for [%d], raise [TypeError]; an unfinished or unsupported
    directive raises [ValueError]. *)
Fixpoint format_go (fmt : string) (width : option nat) (args : list value)
  : result string :=
  match fmt, width with
  | EmptyString, None =>
      match args with
      | [] => Ok ""
      | _ :: _ => Raise TypeError
      end
  | EmptyString, Some _ => Raise ValueError
  | String c rest, None =>
      if Ascii.eqb c "%" then format_go rest (Some 0%nat) args
      else map_result (String c) (format_go rest None args)
  | String c rest, Some w =>
      if is_digit c then format_go rest (Some (10 * w + digit_val c)%nat) args
      else if Ascii.eqb c "s" then
        match args with
        | a :: args' =>
            map_result (append (rjust w (str a))) (format_go rest None args')
        | [] => Raise TypeError
        end
      else if Ascii.eqb c "d" then
        match args with
        | VInt z :: args' =>
            map_result (append (rjust w (str_of_int z)))
                       (format_go rest None args')
        | _ :: _ => Raise TypeError
        | [] => Raise TypeError
        end
      else Raise ValueError
  end.

Definition format (fmt : string) (args : list value) : result string :=
  format_go fmt None args.

(** [s.split(sep)] for a one-character separator. *)
Fixpoint split (sep : ascii) (s : string) : list string :=
  match s with
  | EmptyString => [""]
  | String c s' =>
      if Ascii.eqb c sep then "" :: split sep s'
      else match split sep s' with
           | piece :: pieces => String c piece :: pieces
           | [] => [String c ""]
           end
  end.

(** [itertools.zip_longest] over the characters of two strings. *)
Fixpoint zip_longest (a b : string) : list (option ascii * option ascii) :=
  match a with
  | EmptyString =>
      map (fun d => (None, Some d)) (list_ascii_of_string b)
  | String c a' =>
      match b with
      | EmptyString => (Some c, None) :: zip_longest a' ""
      | String d b' => (Some c, Some d) :: zip_longest a' b'
      end
  end.

(** [s[:n]]. *)
Fixpoint take (n : nat) (s : string) : string :=
  match n, s with
  | S n', String c s' => String c (take n' s')
  | _, _ => ""
  end.

(** A [dict] with string keys: an association list without repeated keys, in
    insertion order.  Assigning to a key that is present replaces the value
    where it stands; a new key goes to the end. *)
Definition dict (V : Type) : Type := list (string * V).

Fixpoint dict_get {V : Type} (k : string) (d : dict V) : option V :=
  match d with
  | [] => None
  | (k', v) :: d' => if String.eqb k k' then Some v else dict_get k d'
  end.

Fixpoint dict_set {V : Type} (k : string) (v : V) (d : dict V) : dict V :=
  match d with
  | [] => [(k, v)]
  | (k', v') :: d' =>
      if String.eqb k k' then (k', v) :: d' else (k', v') :: dict_set k v d'
  end.

Definition dict_items {V : Type} (d : dict V) : list (string * V) := d.

(** [d[k]], which raises [KeyError] for a missing key. *)
Definition dict_getitem {V : Type} (k : string) (d : dict V) : result V :=
  match dict_get k d with
  | Some v => Ok v
  | None => Raise KeyError
  end.

(** [sorted(l, key=key)] for integer keys: ascending, and stable (elements
    with equal keys keep their relative order).  [insert_by] puts [x] in
    front of the first element whose key is not smaller, and [sorted] inserts
    from the right, so an earlier element ends up in front of a later one
    with the same key. *)
Section Sorted.

Variable A : Type.
Variable key : A -> nat.

Fixpoint insert_by (x : A) (l : list A) : list A :=
  match l with
  | [] => [x]
  | y :: l' => if (key x <=? key y)%nat then x :: l else y :: insert_by x l'
  end.

Definition sorted (l : list A) : list A := fold_right insert_by [] l.

(** The order [sorted] establishes. *)
Definition le_by (x y : A) : Prop := (key x <= key y)%nat.

End Sorted.
Arguments insert_by {A} key x l.
Arguments sorted {A} key l.
Arguments le_by {A} key x y.

End Py.
Import Py.

(** ** Effects: exceptions and the trace of what the program does *)

Inductive level : Type :=
| INFO
| CRITICAL.

(** Log messages.  The two messages that print an elapsed time
    ("Query took %0.2f seconds." and "Processing time: %.3f") are kept
    abstract: wall-clock time is not modelled. *)
Inductive log_msg : Type :=
| LogText (s : string)
| LogQueryTook
| LogUnableToRetrieve (exc : string)
| LogProcessingTime.

Inductive event : Type :=
| EvLog (lvl : level) (msg : log_msg)
| EvDistance (s1 s2 : string)
| EvStdout (s : string).

(** A computation either returns a value or raises, and leaves the events it
    performed, oldest first. *)
Definition M (A : Type) : Type := (result A * list event)%type.

Definition ret {A : Type} (a : A) : M A := (Ok a, []).

Definition bind {A B : Type} (m : M A) (f : A -> M B) : M B :=
  match m with
  | (Ok a, t) => let (r, t') := f a in (r, t ++ t')
  | (Raise e, t) => (Raise e, t)
  end.

Definition lift {A : Type} (r : result A) : M A := (r, []).

Definition emit (ev : event) : M unit := (Ok tt, [ev]).

Notation "x <- m ;; k" := (bind m (fun x => k))
  (at level 100, m at next level, right associativity).
Notation "m ;;; k" := (bind m (fun _ => k))
  (at level 100, right associativity).

Definition log_info (msg : log_msg) : M unit := emit (EvLog INFO msg).
Definition log_critical (msg : log_msg) : M unit := emit (EvLog CRITICAL msg).

(** [print(s)] and [print(s, end="")]. *)
Definition newline : string := String (ascii_of_nat 10) "".
Definition print (s : string) : M unit := emit (EvStdout (s ++ newline)).
Definition print_noend (s : string) : M unit := emit (EvStdout s).

(** The call [Levenshtein.distance(s1, s2)], recorded in the trace. *)
Definition call_distance (s1 s2 : string) : M nat :=
  emit (EvDistance s1 s2) ;;; ret (Levenshtein.distance s1 s2).

(** ** Relay descriptors *)

(** The attributes of a stem server descriptor that the scripts read.  The
    attributes formatted with [%s] stand for their [str()] rendering
    (version, exit policy and publication time are objects in stem). *)
Record Descriptor : Type := {
  fingerprint : string;
  nickname : string;
  address : string;
  or_port : Z;
  dir_port : option Z;
  tor_version : string;
  exit_policy : string;
  average_bandwidth : Z;
  burst_bandwidth : Z;
  observed_bandwidth : Z;
  operating_system : string;
  published : string;
  uptime : Z;
  contact : string
}.

(** What [query.run()] does: the descriptors it yields, and the exception
    that ended the download, if any. *)
Record Query : Type := {
  q_yielded : list Descriptor;
  q_exception : option string
}.

(** [fetch_descriptors], the same in both scripts. *)
Definition fetch_descriptors (query : Query) : M (dict Descriptor) :=
  let descs :=
    fold_left (fun descs desc => dict_set (fingerprint desc) desc descs)
              (q_yielded query) [] in
  match q_exception query with
  | None => log_info LogQueryTook
  | Some exc => log_critical (LogUnableToRetrieve exc)
  end ;;;
  msg <- lift (format "Downloaded %d descs."
                      [VInt (Z.of_nat (List.length descs))]) ;;
  log_info (LogText msg) ;;;
  ret descs.

(** The first loop of [process_descriptors], the same in both scripts: the
    table [dists] of distances to the reference string. *)
Section Ranking.

Variable to_str : Descriptor -> result string.

Fixpoint rank_loop (reference_str : string) (i : Z)
    (items : list (string * Descriptor)) (dists : dict nat) : M (dict nat) :=
  match items with
  | [] => ret dists
  | (_, desc) :: items' =>
      s <- lift (to_str desc) ;;
      d <- call_distance reference_str s ;;
      let dists := dict_set (fingerprint desc) d dists in
      (if (i mod 1000 =? 0)%Z then
         msg <- lift (format "Processed %d descriptors." [VInt i]) ;;
         log_info (LogText msg)
       else ret tt) ;;;
      rank_loop reference_str (i + 1)%Z items' dists
  end.

Definition rank (reference_str : string) (descs : dict Descriptor)
  : M (dict nat) :=
  rank_loop reference_str 0%Z (dict_items descs) [].

Definition sort_dists (dists : dict nat) : list (string * nat) :=
  sorted snd (dict_items dists).

End Ranking.

(** ** trnns.py *)

Module Trnns.

Definition to_str (desc : Descriptor) : result string :=
  let dir_port := dir_port desc in
  let dir_port := match dir_port with None => 0%Z | Some p => p end in
  format "%s%s%d%d%s%s%d%d%d%s%s%d%s"
    [VStr (nickname desc); VStr (address desc); VInt (or_port desc);
     VInt dir_port; VStr (tor_version desc); VStr (exit_policy desc);
     VInt (average_bandwidth desc); VInt (burst_bandwidth desc);
     VInt (observed_bandwidth desc); VStr (operating_system desc);
     VStr (published desc); VInt (uptime desc); VStr (contact desc)].

Definition print_desc (desc : Descriptor) : M unit :=
  s <- lift (format "%s,%s,%s,%d,%s,%s,%d,%s"
       [VStr (fingerprint desc); VStr (nickname desc); VStr (address desc);
        VInt (or_port desc); VStr (tor_version desc);
        VStr (operating_system desc); VInt (observed_bandwidth desc);
        VStr (contact desc)]) ;;
  print s.

Definition header : string :=
  "distance,fingerprint,nickname,addr,orport,version,os,bw,contact".

(** The second loop: one row per element until the index reaches
    [num_results]. *)
Fixpoint present_loop (descs : dict Descriptor) (num_results : Z) (i : Z)
    (sorted_dists : list (string * nat)) : M unit :=
  match sorted_dists with
  | [] => ret tt
  | elem :: rest =>
      if (i =? num_results)%Z then ret tt
      else
        let (fingerprint, distance) := elem in
        s <- lift (format "%3d," [VInt (Z.of_nat distance)]) ;;
        print_noend s ;;;
        desc <- lift (dict_getitem fingerprint descs) ;;
        print_desc desc ;;;
        present_loop descs num_results (i + 1)%Z rest
  end.

Definition process_descriptors (query : Query) (relay_fpr : string)
    (num_results : Z) : M Z :=
  descs <- fetch_descriptors query ;;
  match dict_get relay_fpr descs with
  | None =>
      log_critical (LogText "Reference relay not found in descriptors.") ;;;
      ret 1%Z
  | Some reference =>
      reference_str <- lift (to_str reference) ;;
      dists <- rank to_str reference_str descs ;;
      let sorted_dists := sort_dists dists in
      log_info LogProcessingTime ;;;
      print header ;;;
      present_loop descs num_results 0%Z sorted_dists ;;;
      ret 0%Z
  end.

End Trnns.

(** ** trnnr.py *)

Module Trnnr.

Definition dirport_to_int (dir_port : option Z) : Z :=
  match dir_port with
  | None => 0%Z
  | Some p => p
  end.

Definition to_str (desc : Descriptor) : result string :=
  format "%s%s%d%d%s%s%d%d%d%s%s%d%s"
    [VStr (nickname desc); VStr (address desc); VInt (or_port desc);
     VInt (dirport_to_int (dir_port desc)); VStr (tor_version desc);
     VStr (exit_policy desc); VInt (average_bandwidth desc);
     VInt (burst_bandwidth desc); VInt (observed_bandwidth desc);
     VStr (operating_system desc); VStr (published desc);
     VInt (uptime desc); VStr (contact desc)].

Definition desc_to_str (desc : Descriptor) : result string :=
  format "%s,%s,%s,%d,%d,%s,%s,%d,%d,%d,%d,%s"
    [VStr (take 8 (fingerprint desc)); VStr (nickname desc);
     VStr (address desc); VInt (or_port desc);
     VInt (dirport_to_int (dir_port desc)); VStr (tor_version desc);
     VStr (operating_system desc); VInt (average_bandwidth desc);
     VInt (burst_bandwidth desc); VInt (observed_bandwidth desc);
     VInt (uptime desc); VStr (contact desc)].

Definition header : list string :=
  ["distance"; "fingerprint"; "nickname"; "addr"; "orport"; "dirport";
   "version"; "os"; "avgbw"; "burstbw"; "obsbw"; "uptime"; "contact"].

(** The two library calls of the presenter are parameters:
    [termcolor.colored(text, colour)] and [tabulate.tabulate(rows)]. *)
Section Libraries.

Variable colored : string -> string -> string.
Variable tabulate : list (list string) -> string.

(** The body of the inner loop of [format_desc]: what one pair of
    [zip_longest] adds to [final_string].  [zip_longest] never yields a pair
    of two [None]s. *)
Definition format_char (use_colour : bool) (p : option ascii * option ascii)
  : string :=
  match p with
  | (Some char, Some ref_char) =>
      if Ascii.eqb char ref_char && use_colour
      then colored (String char "") "red"
      else String char ""
  | (Some char, None) => String char ""
  | (None, _) => " "
  end.

(** The body of the outer loop: one field and the comma after it. *)
Definition format_field (use_colour : bool) (final_string : string)
    (p : string * string) : string :=
  let (field, ref_field) := p in
  (fold_left (fun acc q => acc ++ format_char use_colour q)
             (zip_longest field ref_field) final_string ++ ",")%string.

Definition format_desc (desc ref_desc : Descriptor) (use_colour : bool)
  : result (list string) :=
  match desc_to_str desc with
  | Raise e => Raise e
  | Ok desc =>
      match desc_to_str ref_desc with
      | Raise e => Raise e
      | Ok ref_desc =>
          let final_string :=
            fold_left (format_field use_colour)
                      (combine (split "," desc) (split "," ref_desc)) "" in
          Ok (split "," final_string)
      end
  end.

(** The second loop: [lines] grows by one row per element until the index
    reaches [num_results]. *)
Fixpoint present_loop (descs : dict Descriptor) (relay_fpr : string)
    (num_results : Z) (use_colour : bool) (i : Z)
    (sorted_dists : list (string * nat)) (lines : list (list string))
  : M (list (list string)) :=
  match sorted_dists with
  | [] => ret lines
  | elem :: rest =>
      if (i =? num_results)%Z then ret lines
      else
        let (fingerprint, distance) := elem in
        desc <- lift (dict_getitem fingerprint descs) ;;
        ref_desc <- lift (dict_getitem relay_fpr descs) ;;
        line <- lift (format_desc desc ref_desc use_colour) ;;
        d <- lift (format "%3d" [VInt (Z.of_nat distance)]) ;;
        present_loop descs relay_fpr num_results use_colour (i + 1)%Z rest
                     (lines ++ [d :: line])
  end.

Definition process_descriptors (query : Query) (relay_fpr : string)
    (num_results : Z) (use_colour : bool) : M Z :=
  descs <- fetch_descriptors query ;;
  match dict_get relay_fpr descs with
  | None =>
      log_critical (LogText "Reference relay not found in descriptors.") ;;;
      ret 1%Z
  | Some reference =>
      reference_str <- lift (to_str reference) ;;
      dists <- rank to_str reference_str descs ;;
      let sorted_dists := sort_dists dists in
      log_info LogProcessingTime ;;;
      lines <- present_loop descs relay_fpr num_results use_colour 0%Z
                            sorted_dists [header] ;;
      print (tabulate lines) ;;;
      ret 0%Z
  end.

End Libraries.

End Trnnr.

(** ** Vocabulary of the statements *)

(** The canonical string of a descriptor as the specification words it: the
    fields below, in this order, with nothing between them, numbers in
    decimal and a missing dir-port as 0. *)
Definition canonical (d : Descriptor) : string :=
  (nickname d ++ address d ++ str_of_int (or_port d)
   ++ str_of_int (match dir_port d with None => 0%Z | Some p => p end)
   ++ tor_version d ++ exit_policy d
   ++ str_of_int (average_bandwidth d) ++ str_of_int (burst_bandwidth d)
   ++ str_of_int (observed_bandwidth d)
   ++ operating_system d ++ published d ++ str_of_int (uptime d)
   ++ contact d)%string.

(** A descriptor with another fingerprint, or another dir-port. *)
Definition with_fingerprint (d : Descriptor) (fpr : string) : Descriptor :=
  {| fingerprint := fpr; nickname := nickname d; address := address d;
     or_port := or_port d; dir_port := dir_port d;
     tor_version := tor_version d; exit_policy := exit_policy d;
     average_bandwidth := average_bandwidth d;
     burst_bandwidth := burst_bandwidth d;
     observed_bandwidth := observed_bandwidth d;
     operating_system := operating_system d; published := published d;
     uptime := uptime d; contact := contact d |}.

Definition with_dir_port (d : Descriptor) (p : option Z) : Descriptor :=
  {| fingerprint := fingerprint d; nickname := nickname d;
     address := address d; or_port := or_port d; dir_port := p;
     tor_version := tor_version d; exit_policy := exit_policy d;
     average_bandwidth := average_bandwidth d;
     burst_bandwidth := burst_bandwidth d;
     observed_bandwidth := observed_bandwidth d;
     operating_system := operating_system d; published := published d;
     uptime := uptime d; contact := contact d |}.

(** Reading a decimal numeral back. *)
Definition int_of_str (s : string) : option Z :=
  option_map Z.of_int (NilZero.int_of_string s).

(** Everything written to standard output, and the calls of the distance
    function, read off a trace. *)
Fixpoint stdout_text (t : list event) : string :=
  match t with
  | [] => ""
  | EvStdout s :: t' => (s ++ stdout_text t')%string
  | _ :: t' => stdout_text t'
  end.

Fixpoint distance_calls (t : list event) : list (string * string) :=
  match t with
  | [] => []
  | EvDistance s1 s2 :: t' => (s1, s2) :: distance_calls t'
  | _ :: t' => distance_calls t'
  end.

Fixpoint concat_str (l : list string) : string :=
  match l with
  | [] => ""
  | s :: l' => (s ++ concat_str l')%string
  end.

(** A dictionary as [fetch_descriptors] builds it: no key twice, and every
    descriptor filed under its own fingerprint. *)
Definition fetched (descs : dict Descriptor) : Prop :=
  NoDup (map fst descs) /\
  Forall (fun kv => fingerprint (snd kv) = fst kv) descs.

(** Ascending by distance. *)
Definition by_distance : string * nat -> string * nat -> Prop := le_by snd.

(** The line of [trnns.py] for one ranking entry. *)
Definition trnns_row (desc : Descriptor) (distance : nat) : string :=
  (rjust 3 (str_of_int (Z.of_nat distance)) ++ ","
   ++ fingerprint desc ++ "," ++ nickname desc ++ "," ++ address desc ++ ","
   ++ str_of_int (or_port desc) ++ "," ++ tor_version desc ++ ","
   ++ operating_system desc ++ "," ++ str_of_int (observed_bandwidth desc)
   ++ "," ++ contact desc ++ newline)%string.

(** [s.ljust(n)]: spaces are added on the right up to [n] characters. *)
Definition ljust (n : nat) (s : string) : string :=
  (s ++ spaces (n - String.length s))%string.

Fixpoint has_comma (s : string) : bool :=
  match s with
  | EmptyString => false
  | String c s' => Ascii.eqb c "," || has_comma s'
  end.

(** The twelve values [desc_to_str] joins with commas. *)
Definition features (desc : Descriptor) : list string :=
  [take 8 (fingerprint desc); nickname desc; address desc;
   str_of_int (or_port desc);
   str_of_int (Trnnr.dirport_to_int (dir_port desc));
   tor_version desc; operating_system desc;
   str_of_int (average_bandwidth desc); str_of_int (burst_bandwidth desc);
   str_of_int (observed_bandwidth desc); str_of_int (uptime desc);
   contact desc].

(** No comma in any of the values [desc_to_str] formats with [%s]. *)
Definition comma_free (desc : Descriptor) : Prop :=
  has_comma (take 8 (fingerprint desc)) = false /\
  has_comma (nickname desc) = false /\
  has_comma (address desc) = false /\
  has_comma (tor_version desc) = false /\
  has_comma (operating_system desc) = false /\
  has_comma (contact desc) = false.

(** [",".join(l)]. *)
Fixpoint join_commas (l : list string) : string :=
  match l with
  | [] => ""
  | [s] => s
  | s :: l' => (s ++ "," ++ join_commas l')%string
  end.

(** The table of distances to the reference, in dictionary order. *)
Definition distance_table (reference : Descriptor) (descs : dict Descriptor)
  : dict nat :=
  map (fun kv => (fst kv,
                  Levenshtein.distance (canonical reference)
                                       (canonical (snd kv)))) descs.

(** [ranking] is the sorted list that the first half of
    [process_descriptors] hands to the second, in either script. *)
Definition ranking_of (reference : Descriptor) (descs : dict Descriptor)
    (ranking : list (string * nat)) : Prop :=
  exists dists,
    fst (rank Trnns.to_str (canonical reference) descs) = Ok dists /\
    fst (rank Trnnr.to_str (canonical reference) descs) = Ok dists /\
    ranking = sort_dists dists.

(** The entries of a ranking that the second loop reaches when it starts
    with index [i]: all of them when [num_results] is below the index, the
    first [num_results - i] otherwise. *)
Definition shown_from {A : Type} (i num_results : Z) (l : list A) : list A :=
  if (num_results <? i)%Z then l
  else firstn (Z.to_nat (num_results - i)) l.

(** [row] is the output for the ranking entry [entry]. *)
Definition trnns_shows (descs : dict Descriptor) (entry : string * nat)
    (row : string) : Prop :=
  exists desc,
    dict_get (fst entry) descs = Some desc /\
    row = trnns_row desc (snd entry).

Definition trnnr_shows (colored : string -> string -> string)
    (descs : dict Descriptor) (reference : Descriptor) (use_colour : bool)
    (entry : string * nat) (row : list string) : Prop :=
  exists desc line,
    dict_get (fst entry) descs = Some desc /\
    Trnnr.format_desc colored desc reference use_colour = Ok line /\
    row = rjust 3 (str_of_int (Z.of_nat (snd entry))) :: line.

(** ** Vocabulary of the further properties *)

(** A descriptor with another nickname and address, and one with other
    values for what [desc_to_str] does not show in full: the fingerprint,
    the exit policy and the publication time. *)
Definition with_nickname_address (d : Descriptor) (nick addr : string)
  : Descriptor :=
  {| fingerprint := fingerprint d; nickname := nick; address := addr;
     or_port := or_port d; dir_port := dir_port d;
     tor_version := tor_version d; exit_policy := exit_policy d;
     average_bandwidth := average_bandwidth d;
     burst_bandwidth := burst_bandwidth d;
     observed_bandwidth := observed_bandwidth d;
     operating_system := operating_system d; published := published d;
     uptime := uptime d; contact := contact d |}.

Definition with_unshown (d : Descriptor) (fpr policy time : string)
  : Descriptor :=
  {| fingerprint := fpr; nickname := nickname d; address := address d;
     or_port := or_port d; dir_port := dir_port d;
     tor_version := tor_version d; exit_policy := policy;
     average_bandwidth := average_bandwidth d;
     burst_bandwidth := burst_bandwidth d;
     observed_bandwidth := observed_bandwidth d;
     operating_system := operating_system d; published := time;
     uptime := uptime d; contact := contact d |}.

(** The log records of a trace. *)
Fixpoint logs (t : list event) : list (level * log_msg) :=
  match t with
  | [] => []
  | EvLog lvl msg :: t' => (lvl, msg) :: logs t'
  | _ :: t' => logs t'
  end.

(** The indexes [i], [i + 1], ..., [n] of them. *)
Fixpoint zrange (i : Z) (n : nat) : list Z :=
  match n with
  | O => []
  | S n' => i :: zrange (i + 1)%Z n'
  end.

Definition progress_msg (i : Z) : string :=
  ("Processed " ++ str_of_int i ++ " descriptors.")%string.

Definition downloaded_msg (n : nat) : string :=
  ("Downloaded " ++ str_of_int (Z.of_nat n) ++ " descs.")%string.

(** The last descriptor of a download that carries the fingerprint [fpr]. *)
Definition last_yielded (fpr : string) (yielded : list Descriptor)
  : option Descriptor :=
  find (fun d => String.eqb fpr (fingerprint d)) (rev yielded).

(** What the inner loop of [format_desc] makes of one pair of pieces. *)
Definition highlight (colored : string -> string -> string)
    (use_colour : bool) (p : string * string) : string :=
  concat_str (map (Trnnr.format_char colored use_colour)
                  (zip_longest (fst p) (snd p))).

(** A colouring function that adds no comma to a character that is not
    one. *)
Definition comma_free_colouring (colored : string -> string -> string)
  : Prop :=
  forall char colour,
    Ascii.eqb char "," = false ->
    has_comma (colored (String char "") colour) = false.


(** ** Sample data *)

Module Sample.

Definition relay (fpr nick : string) (dirp : option Z) (ct : string)
  : Descriptor :=
  {| fingerprint := fpr; nickname := nick; address := "198.51.100.7";
     or_port := 9001; dir_port := dirp; tor_version := "0.2.7.6";
     exit_policy := "reject *:*"; average_bandwidth := 1048576;
     burst_bandwidth := 2097152; observed_bandwidth := 524288;
     operating_system := "Linux"; published := "2016-02-01 10:00:00";
     uptime := 86400; contact := ct |}.

Definition relayA : Descriptor :=
  relay "AAAAAAAAAAAAAAAAAAAAAAAAAAAAAAAAAAAAAAAA" "falcon" (Some 9030%Z)
        "ops@example.org".
Definition relayB : Descriptor :=
  relay "BBBBBBBBBBBBBBBBBBBBBBBBBBBBBBBBBBBBBBBB" "falconXYZ" (Some 9030%Z)
        "ops@example.org".
Definition relayC : Descriptor :=
  relay "CCCCCCCCCCCCCCCCCCCCCCCCCCCCCCCCCCCCCCCC" "falcon2" (Some 9030%Z)
        "ops@example.org".

Definition fprA : string := "AAAAAAAAAAAAAAAAAAAAAAAAAAAAAAAAAAAAAAAA".
Definition fprB : string := "BBBBBBBBBBBBBBBBBBBBBBBBBBBBBBBBBBBBBBBB".
Definition fprC : string := "CCCCCCCCCCCCCCCCCCCCCCCCCCCCCCCCCCCCCCCC".
Definition fprX : string := "9695DFC35FFEB861329B9F1AB04C46397020CE31".

Definition queryABC : Query :=
  {| q_yielded := [relayA; relayB; relayC]; q_exception := None |}.

Definition descsABC : dict Descriptor :=
  [(fprA, relayA); (fprB, relayB); (fprC, relayC)].

(** A relay without a directory port. *)
Definition relayN : Descriptor := relay fprX "kestrel" None "".

(** Two relays whose contact line holds a comma. *)
Definition relayP : Descriptor :=
  relay fprA "falcon" (Some 9030%Z) "Ops, ops@example.org".
Definition relayQ : Descriptor :=
  relay fprB "falcon" (Some 9030%Z) "Noc, noc@example.org".

(** A download in which the fingerprint of [relayA] comes twice. *)
Definition queryDup : Query :=
  {| q_yielded := [relayA; relayP; relayB];
     q_exception := Some "timed out" |}.

(** [termcolor.colored] wraps the text in ANSI escape codes, and a plain
    stand-in for [tabulate.tabulate]. *)
Definition esc : string := String (ascii_of_nat 27) "".
Definition colored (text colour : string) : string :=
  (esc ++ "[31m" ++ text ++ esc ++ "[0m")%string.
Definition tabulate (rows : list (list string)) : string :=
  concat_str (map (fun row => (concat_str (map (fun c => (c ++ " ")%string) row)
                               ++ newline)%string) rows).

End Sample.

(** * Properties *)

(** ** The edit distance *)

Module LevenshteinFacts.
Import Levenshtein.

Section Generic.

Variable A : Type.
Variable A_eqb : A -> A -> bool.
Hypothesis A_eqb_spec : forall x y, A_eqb x y = true <-> x = y.

Local Abbreviation edit := (edit A).
Local Abbreviation lev_rec := (lev_rec A A_eqb).
Local Abbreviation lev_row := (lev_row A A_eqb).
Local Abbreviation distance_list := (distance_list A A_eqb).
Local Abbreviation subst_cost := (subst_cost A A_eqb).

Lemma subst_cost_same c : subst_cost c c = 0.
Proof.
  unfold Levenshtein.subst_cost.
  destruct (A_eqb c c) eqn:E; [reflexivity|].
  assert (A_eqb c c = true) by (apply A_eqb_spec; reflexivity). congruence.
Qed.

Lemma subst_cost_le c d : subst_cost c d <= 1.
Proof. unfold Levenshtein.subst_cost. destruct (A_eqb c d); lia. Qed.

Lemma subst_cost_sym c d : subst_cost c d = subst_cost d c.
Proof.
  unfold Levenshtein.subst_cost.
  destruct (A_eqb c d) eqn:E1, (A_eqb d c) eqn:E2; try reflexivity.
  - apply A_eqb_spec in E1. subst.
    assert (A_eqb d d = true) by (apply A_eqb_spec; reflexivity). congruence.
  - apply A_eqb_spec in E2. subst.
    assert (A_eqb c c = true) by (apply A_eqb_spec; reflexivity). congruence.
Qed.

Lemma lev_rec_nil_r s : lev_rec s [] = List.length s.
Proof. destruct s; reflexivity. Qed.

Lemma lev_rec_cons c d s t :
  lev_rec (c :: s) (d :: t) =
  min3 (S (lev_rec s (d :: t))) (S (lev_rec (c :: s) t))
       (lev_rec s t + subst_cost c d).
Proof. reflexivity. Qed.

(** The table row of [s] lists the recurrence on the suffixes of [t]. *)
Lemma lev_row_unfold s : forall t,
  lev_row s t = match t with
                | [] => [lev_rec s []]
                | _ :: t' => lev_rec s t :: lev_row s t'
                end.
Proof.
  induction s as [|c s IHs].
  - intros [|d t]; reflexivity.
  - intros t. induction t as [|d t IHt].
    + cbn [Levenshtein.lev_row Levenshtein.next_row].
      rewrite (IHs []). cbn [hd]. rewrite lev_rec_nil_r. reflexivity.
    + cbn [Levenshtein.lev_row Levenshtein.next_row].
      rewrite (IHs (d :: t)). cbn [hd tl].
      change (Levenshtein.next_row A A_eqb c t (lev_row s t))
        with (lev_row (c :: s) t).
      rewrite lev_rec_cons. f_equal. f_equal.
      * f_equal. rewrite IHt. destruct t; reflexivity.
      * f_equal. rewrite (IHs t). destruct t; reflexivity.
Qed.

Lemma distance_list_rec s t : distance_list s t = lev_rec s t.
Proof.
  unfold Levenshtein.distance_list. rewrite lev_row_unfold.
  destruct t; reflexivity.
Qed.

(** The recurrence is reached by an edit script... *)
Lemma lev_rec_edit s : forall t, edit s t (lev_rec s t).
Proof.
  induction s as [|c s IHs].
  - induction t as [|d t IHt]; cbn.
    + constructor.
    + apply edit_insert. exact IHt.
  - induction t as [|d t IHt].
    + rewrite lev_rec_nil_r. cbn [List.length].
      apply edit_delete. rewrite <- (lev_rec_nil_r s). apply IHs.
    + rewrite lev_rec_cons. unfold min3.
      destruct (Nat.min_spec (S (lev_rec s (d :: t)))
                  (Nat.min (S (lev_rec (c :: s) t))
                           (lev_rec s t + subst_cost c d))) as [[_ ->]|[_ ->]].
      * apply edit_delete, IHs.
      * destruct (Nat.min_spec (S (lev_rec (c :: s) t))
                    (lev_rec s t + subst_cost c d)) as [[_ ->]|[_ ->]].
        -- apply edit_insert, IHt.
        -- unfold Levenshtein.subst_cost.
           destruct (A_eqb c d) eqn:E.
           ++ apply A_eqb_spec in E. subst d. rewrite Nat.add_0_r.
              apply edit_keep, IHs.
           ++ rewrite Nat.add_1_r. apply edit_subst, IHs.
Qed.

(** ... and no edit script is shorter. *)
Lemma lev_rec_least s t n : edit s t n -> lev_rec s t <= n.
Proof.
  induction 1 as [|c s t n H IH|c d s t n H IH|c s t n H IH|d s t n H IH].
  - cbn. lia.
  - rewrite lev_rec_cons, subst_cost_same. unfold min3. lia.
  - rewrite lev_rec_cons. pose proof (subst_cost_le c d). unfold min3. lia.
  - destruct t as [|d t].
    + rewrite lev_rec_nil_r in *. cbn [List.length]. lia.
    + rewrite lev_rec_cons. unfold min3. lia.
  - destruct s as [|c s].
    + cbn in *. lia.
    + rewrite lev_rec_cons. unfold min3. lia.
Qed.

Lemma edit_refl s : edit s s 0.
Proof. induction s; constructor; assumption. Qed.

Lemma edit_sym s t n : edit s t n -> edit t s n.
Proof. induction 1; constructor; assumption. Qed.

Lemma edit_zero s t n : edit s t n -> n = 0 -> s = t.
Proof.
  induction 1; intros E; try discriminate.
  - reflexivity.
  - f_equal. auto.
Qed.

(** Two scripts in a row can be merged into one that is not longer than
    both together. *)
Lemma edit_trans a b n :
  edit a b n -> forall c m, edit b c m -> exists k, k <= n + m /\ edit a c k.
Proof.
  induction 1 as [|x s t n H IH|x y s t n H IH|x s t n H IH|y s t n H IH];
    intros c m H2.
  - exists m. split; [lia | exact H2].
  - remember (x :: t) as b eqn:Eb. revert Eb.
    induction H2 as [|z t1 t2 n2 H2 IH2|z d t1 t2 n2 H2 IH2
                    |z t1 t2 n2 H2 IH2|d t1 t2 n2 H2 IH2]; intros Eb.
    + discriminate.
    + injection Eb as -> ->. destruct (IH _ _ H2) as (k & Hk & Hed).
      exists k. split; [lia | apply edit_keep, Hed].
    + injection Eb as -> ->. destruct (IH _ _ H2) as (k & Hk & Hed).
      exists (S k). split; [lia | apply edit_subst, Hed].
    + injection Eb as -> ->. destruct (IH _ _ H2) as (k & Hk & Hed).
      exists (S k). split; [lia | apply edit_delete, Hed].
    + destruct (IH2 Eb) as (k & Hk & Hed).
      exists (S k). split; [lia | apply edit_insert, Hed].
  - remember (y :: t) as b eqn:Eb. revert Eb.
    induction H2 as [|z t1 t2 n2 H2 IH2|z d t1 t2 n2 H2 IH2
                    |z t1 t2 n2 H2 IH2|d t1 t2 n2 H2 IH2]; intros Eb.
    + discriminate.
    + injection Eb as -> ->. destruct (IH _ _ H2) as (k & Hk & Hed).
      exists (S k). split; [lia | apply edit_subst, Hed].
    + injection Eb as -> ->. destruct (IH _ _ H2) as (k & Hk & Hed).
      exists (S k). split; [lia | apply edit_subst, Hed].
    + injection Eb as -> ->. destruct (IH _ _ H2) as (k & Hk & Hed).
      exists (S k). split; [lia | apply edit_delete, Hed].
    + destruct (IH2 Eb) as (k & Hk & Hed).
      exists (S k). split; [lia | apply edit_insert, Hed].
  - destruct (IH _ _ H2) as (k & Hk & Hed).
    exists (S k). split; [lia | apply edit_delete, Hed].
  - remember (y :: t) as b eqn:Eb. revert Eb.
    induction H2 as [|z t1 t2 n2 H2 IH2|z d t1 t2 n2 H2 IH2
                    |z t1 t2 n2 H2 IH2|d t1 t2 n2 H2 IH2]; intros Eb.
    + discriminate.
    + injection Eb as -> ->. destruct (IH _ _ H2) as (k & Hk & Hed).
      exists (S k). split; [lia | apply edit_insert, Hed].
    + injection Eb as -> ->. destruct (IH _ _ H2) as (k & Hk & Hed).
      exists (S k). split; [lia | apply edit_insert, Hed].
    + injection Eb as -> ->. destruct (IH _ _ H2) as (k & Hk & Hed).
      exists k. split; [lia | exact Hed].
    + destruct (IH2 Eb) as (k & Hk & Hed).
      exists (S k). split; [lia | apply edit_insert, Hed].
Qed.

Lemma distance_list_edit s t : edit s t (distance_list s t).
Proof. rewrite distance_list_rec. apply lev_rec_edit. Qed.

Lemma distance_list_least s t n : edit s t n -> distance_list s t <= n.
Proof. rewrite distance_list_rec. apply lev_rec_least. Qed.

Lemma distance_list_refl s : distance_list s s = 0.
Proof.
  pose proof (distance_list_least s s 0 (edit_refl s)). lia.
Qed.

Lemma distance_list_sym s t : distance_list s t = distance_list t s.
Proof.
  apply Nat.le_antisymm; apply distance_list_least, edit_sym,
    distance_list_edit.
Qed.

Lemma distance_list_triangle a b c :
  distance_list a c <= distance_list a b + distance_list b c.
Proof.
  destruct (edit_trans _ _ _ (distance_list_edit a b) _ _
              (distance_list_edit b c)) as (k & Hk & Hed).
  apply distance_list_least in Hed. lia.
Qed.

Lemma distance_list_zero s t : distance_list s t = 0 -> s = t.
Proof.
  intros E. apply (edit_zero s t (distance_list s t)); [|exact E].
  apply distance_list_edit.
Qed.

End Generic.

End LevenshteinFacts.

(** ** Traces and the monad *)

Lemma bind_ok {A B : Type} (a : A) (t : list event) (f : A -> M B) :
  bind (Ok a, t) f = (fst (f a), t ++ snd (f a)).
Proof. unfold bind. destruct (f a); reflexivity. Qed.

Lemma bind_lift_ok {A B : Type} (a : A) (f : A -> M B) :
  bind (lift (Ok a)) f = f a.
Proof. unfold lift. rewrite bind_ok. destruct (f a); reflexivity. Qed.

Lemma bind_ret {A B : Type} (a : A) (f : A -> M B) : bind (ret a) f = f a.
Proof. apply (bind_lift_ok a f). Qed.

Lemma bind_emit {B : Type} (ev : event) (f : unit -> M B) :
  bind (emit ev) f = (fst (f tt), ev :: snd (f tt)).
Proof. unfold emit. rewrite bind_ok. reflexivity. Qed.

Lemma stdout_text_app t1 t2 :
  stdout_text (t1 ++ t2) = (stdout_text t1 ++ stdout_text t2)%string.
Proof.
  induction t1 as [|[| |s] t1 IH]; cbn; try exact IH.
  - reflexivity.
  - rewrite IH. clear. induction s; cbn; congruence.
Qed.

Lemma distance_calls_app t1 t2 :
  distance_calls (t1 ++ t2) = distance_calls t1 ++ distance_calls t2.
Proof.
  induction t1 as [|[| |s] t1 IH]; cbn; try exact IH.
  - reflexivity.
  - rewrite IH. reflexivity.
Qed.

Lemma append_nil_r (s : string) : (s ++ "")%string = s.
Proof. induction s; cbn; congruence. Qed.

Lemma append_assoc (a b c : string) :
  ((a ++ b) ++ c)%string = (a ++ (b ++ c))%string.
Proof. induction a; cbn; congruence. Qed.

Lemma call_distance_eq s1 s2 :
  call_distance s1 s2 = (Ok (Levenshtein.distance s1 s2), [EvDistance s1 s2]).
Proof. reflexivity. Qed.

(** ** Formatting *)

Lemma rjust_0 (s : string) : rjust 0 s = s.
Proof. reflexivity. Qed.

Lemma trnns_to_str_ok d : Trnns.to_str d = Ok (canonical d).
Proof.
  unfold Trnns.to_str, canonical, format.
  destruct d. lazy -[str_of_int append rjust].
  rewrite !rjust_0, append_nil_r. reflexivity.
Qed.

Lemma trnnr_to_str_ok d : Trnnr.to_str d = Ok (canonical d).
Proof.
  unfold Trnnr.to_str, canonical, format.
  destruct d. lazy -[str_of_int append rjust].
  rewrite !rjust_0, append_nil_r. reflexivity.
Qed.

(** [desc_to_str] never raises: it is the twelve features with a comma
    after each but the last. *)
Lemma desc_to_str_ok d : Trnnr.desc_to_str d = Ok (join_commas (features d)).
Proof.
  unfold Trnnr.desc_to_str, features, format.
  destruct d. lazy -[str_of_int append rjust take].
  rewrite !rjust_0, append_nil_r. reflexivity.
Qed.

Lemma format_distance_comma n :
  format "%3d," [VInt n] = Ok (rjust 3 (str_of_int n) ++ ",")%string.
Proof. reflexivity. Qed.

Lemma format_distance n : format "%3d" [VInt n] = Ok (rjust 3 (str_of_int n)).
Proof.
  lazy -[str_of_int append rjust]. rewrite append_nil_r. reflexivity.
Qed.

Lemma format_downloaded n : exists msg,
  format "Downloaded %d descs." [VInt n] = Ok msg.
Proof. eexists. reflexivity. Qed.

Lemma format_processed n : exists msg,
  format "Processed %d descriptors." [VInt n] = Ok msg.
Proof. eexists. reflexivity. Qed.

Lemma print_desc_ok desc : exists line,
  Trnns.print_desc desc = (Ok tt, [EvStdout line]) /\
  forall n, (rjust 3 (str_of_int (Z.of_nat n)) ++ "," ++ line)%string
            = trnns_row desc n.
Proof.
  unfold Trnns.print_desc, trnns_row, format.
  destruct desc. eexists. split.
  - lazy -[str_of_int append rjust newline]. reflexivity.
  - intros n. rewrite !rjust_0, append_nil_r.
    cbn [fingerprint nickname address or_port tor_version operating_system
         observed_bandwidth contact].
    repeat (rewrite ?append_assoc; cbn [append]). reflexivity.
Qed.


(** ** Dictionaries *)

Section Dict.

Context {V : Type}.

Lemma dict_get_None k (d : dict V) :
  dict_get k d = None <-> ~ In k (map fst d).
Proof.
  induction d as [|[k' v] d IH]; cbn.
  - tauto.
  - destruct (String.eqb_spec k k') as [->|Hne].
    + split; [discriminate | intros H; exfalso; apply H; auto].
    + rewrite IH. split; intros H; [intros [E|HI]; [congruence|auto] | auto].
Qed.

Lemma dict_get_In k v (d : dict V) : dict_get k d = Some v -> In (k, v) d.
Proof.
  induction d as [|[k' v'] d IH]; cbn; [discriminate|].
  destruct (String.eqb_spec k k') as [->|Hne].
  - intros [= ->]. auto.
  - auto.
Qed.

Lemma In_dict_get k v (d : dict V) :
  NoDup (map fst d) -> In (k, v) d -> dict_get k d = Some v.
Proof.
  induction d as [|[k' v'] d IH]; cbn; [tauto|].
  intros Hnd [E|HI].
  - injection E as -> ->. rewrite String.eqb_refl. reflexivity.
  - inversion Hnd as [|? ? Hnotin Hnd']; subst.
    destruct (String.eqb_spec k k') as [->|Hne].
    + exfalso. apply Hnotin. apply (in_map fst) in HI. exact HI.
    + auto.
Qed.

Lemma dict_set_new k v (d : dict V) :
  ~ In k (map fst d) -> dict_set k v d = d ++ [(k, v)].
Proof.
  induction d as [|[k' v'] d IH]; cbn; [reflexivity|].
  intros H. destruct (String.eqb_spec k k') as [->|Hne].
  - exfalso. auto.
  - rewrite IH; auto.
Qed.

Lemma dict_set_keys_old k v (d : dict V) :
  In k (map fst d) -> map fst (dict_set k v d) = map fst d.
Proof.
  induction d as [|[k' v'] d IH]; cbn; [tauto|].
  intros H. destruct (String.eqb_spec k k') as [->|Hne]; cbn.
  - reflexivity.
  - f_equal. apply IH. destruct H; [congruence|assumption].
Qed.

Lemma dict_set_In k v (d : dict V) kv :
  In kv (dict_set k v d) -> kv = (k, v) \/ In kv d.
Proof.
  induction d as [|[k' v'] d IH]; cbn.
  - intros [<-|[]]. auto.
  - destruct (String.eqb_spec k k') as [->|Hne]; cbn.
    + intros [<-|H]; auto.
    + intros [<-|H]; auto. destruct (IH H); auto.
Qed.

Lemma dict_set_NoDup k v (d : dict V) :
  NoDup (map fst d) -> NoDup (map fst (dict_set k v d)).
Proof.
  intros Hnd. destruct (in_dec string_dec k (map fst d)) as [Hin|Hnin].
  - rewrite dict_set_keys_old; assumption.
  - rewrite dict_set_new by assumption. rewrite map_app. cbn.
    apply NoDup_app; [assumption | repeat constructor; auto | ].
    intros a Ha [<-|[]]. auto.
Qed.

End Dict.

Lemma fetched_nil : fetched [].
Proof. split; constructor. Qed.

Lemma fetched_set desc descs :
  fetched descs -> fetched (dict_set (fingerprint desc) desc descs).
Proof.
  intros [Hnd Hall]. split.
  - apply dict_set_NoDup, Hnd.
  - apply Forall_forall. intros kv Hin.
    apply dict_set_In in Hin. destruct Hin as [->|Hin].
    + reflexivity.
    + rewrite Forall_forall in Hall. auto.
Qed.

Lemma fetched_fold yielded : forall descs,
  fetched descs ->
  fetched (fold_left (fun descs desc => dict_set (fingerprint desc) desc descs)
                     yielded descs).
Proof.
  induction yielded as [|desc yielded IH]; intros descs H; cbn.
  - exact H.
  - apply IH, fetched_set, H.
Qed.

(** What [fetch_descriptors] returns, and that it only logs. *)
Lemma fetch_descriptors_ok query : exists descs t,
  fetch_descriptors query = (Ok descs, t) /\
  fetched descs /\ distance_calls t = [] /\ stdout_text t = "".
Proof.
  unfold fetch_descriptors.
  set (descs := fold_left _ _ _).
  destruct (format_downloaded (Z.of_nat (List.length descs))) as [msg Hmsg].
  rewrite Hmsg.
  exists descs.
  destruct (q_exception query); eexists; (split; [reflexivity|]).
  all: split; [apply fetched_fold, fetched_nil|].
  all: split; reflexivity.
Qed.

(** ** Sorting *)

Section SortedFacts.

Context {A : Type} (key : A -> nat).

Local Abbreviation le_key := (le_by key).

Lemma insert_by_perm x l : Permutation (insert_by key x l) (x :: l).
Proof.
  induction l as [|y l IH]; cbn.
  - apply Permutation_refl.
  - destruct (key x <=? key y)%nat.
    + apply Permutation_refl.
    + eapply perm_trans; [apply perm_skip, IH | apply perm_swap].
Qed.

Lemma sorted_perm l : Permutation (sorted key l) l.
Proof.
  induction l as [|x l IH]; cbn.
  - constructor.
  - eapply perm_trans; [apply insert_by_perm | apply perm_skip, IH].
Qed.

Lemma insert_by_hd y x l :
  le_key y x -> HdRel le_key y l -> HdRel le_key y (insert_by key x l).
Proof.
  intros Hyx Hhd. destruct l as [|z l]; cbn.
  - constructor. exact Hyx.
  - destruct (key x <=? key z)%nat; constructor.
    + exact Hyx.
    + inversion Hhd; assumption.
Qed.

Lemma insert_by_sorted x l :
  Sorted le_key l -> Sorted le_key (insert_by key x l).
Proof.
  induction 1 as [|y l Hs IH Hhd]; cbn.
  - repeat constructor.
  - destruct (Nat.leb_spec (key x) (key y)) as [Hle|Hgt].
    + constructor; [constructor; assumption | constructor; exact Hle].
    + constructor; [exact IH|]. apply insert_by_hd; [|exact Hhd].
      unfold le_by. lia.
Qed.

Lemma sorted_sorted l : Sorted le_key (sorted key l).
Proof.
  induction l as [|x l IH]; cbn.
  - constructor.
  - apply insert_by_sorted, IH.
Qed.

(** Stability: the elements with any one key come out in the order they
    went in. *)
Lemma insert_by_filter d x l :
  filter (fun y => (key y =? d)%nat) (insert_by key x l) =
  filter (fun y => (key y =? d)%nat) (x :: l).
Proof.
  induction l as [|y l IH]; [reflexivity|].
  cbn [insert_by]. destruct (Nat.leb_spec (key x) (key y)) as [Hle|Hgt].
  - reflexivity.
  - cbn [filter] in *. rewrite IH.
    destruct (Nat.eqb_spec (key x) d) as [Ex|Ex];
      destruct (Nat.eqb_spec (key y) d) as [Ey|Ey]; try reflexivity.
    lia.
Qed.

Lemma sorted_stable d l :
  filter (fun y => (key y =? d)%nat) (sorted key l) =
  filter (fun y => (key y =? d)%nat) l.
Proof.
  induction l as [|x l IH]; [reflexivity|].
  cbn [sorted fold_right]. rewrite insert_by_filter.
  cbn [filter]. fold (sorted key l). rewrite IH. reflexivity.
Qed.

End SortedFacts.

(** ** The two loops *)

Section RankFacts.

Variable to_str : Descriptor -> result string.
Hypothesis to_str_ok : forall d, to_str d = Ok (canonical d).

Lemma rank_loop_ok ref items : forall i acc, exists t,
  rank_loop to_str ref i items acc =
    (Ok (fold_left
           (fun acc kv =>
              dict_set (fingerprint (snd kv))
                       (Levenshtein.distance ref (canonical (snd kv))) acc)
           items acc), t) /\
  distance_calls t = map (fun kv => (ref, canonical (snd kv))) items /\
  stdout_text t = "".
Proof.
  induction items as [|[k desc] items IH]; intros i acc.
  - exists []. cbn. auto.
  - cbn [rank_loop fold_left snd].
    rewrite to_str_ok, bind_lift_ok.
    set (acc' := dict_set _ _ acc).
    destruct (IH (i + 1)%Z acc') as (t & Heq & Hd & Hs).
    rewrite call_distance_eq, bind_ok.
    destruct (i mod 1000 =? 0)%Z.
    + destruct (format_processed i) as [msg Hmsg].
      rewrite Hmsg, bind_lift_ok. unfold log_info.
      rewrite bind_emit.
      fold acc'. rewrite Heq. cbn [fst snd].
      eexists. split; [reflexivity|]. split.
      * cbn. rewrite Hd. reflexivity.
      * cbn. exact Hs.
    + rewrite bind_ret. fold acc'. rewrite Heq. cbn [fst snd].
      eexists. split; [reflexivity|]. split.
      * cbn. rewrite Hd. reflexivity.
      * cbn. exact Hs.
Qed.

Lemma fold_distance_table ref items : forall acc,
  NoDup (map fst acc ++ map fst items) ->
  Forall (fun kv => fingerprint (snd kv) = fst kv) items ->
  fold_left
    (fun acc kv =>
       dict_set (fingerprint (snd kv))
                (Levenshtein.distance ref (canonical (snd kv))) acc)
    items acc =
  acc ++ map (fun kv => (fst kv,
                         Levenshtein.distance ref (canonical (snd kv)))) items.
Proof.
  induction items as [|[k desc] items IH]; intros acc Hnd Hall.
  - cbn. rewrite app_nil_r. reflexivity.
  - inversion Hall as [|? ? Hk Hall']; subst. cbn in Hk. subst k.
    cbn [fold_left map fst snd].
    rewrite dict_set_new.
    + rewrite IH; [rewrite <- app_assoc; reflexivity| |exact Hall'].
      rewrite map_app, <- app_assoc. exact Hnd.
    + cbn in Hnd. apply NoDup_remove_2 in Hnd.
      intros Hin. apply Hnd, in_or_app. auto.
Qed.

Lemma rank_ok reference descs :
  fetched descs ->
  exists t,
    rank to_str (canonical reference) descs =
      (Ok (distance_table reference descs), t) /\
    distance_calls t =
      map (fun kv => (canonical reference, canonical (snd kv))) descs /\
    stdout_text t = "".
Proof.
  intros [Hnd Hall]. unfold rank, dict_items.
  destruct (rank_loop_ok (canonical reference) descs 0%Z [])
    as (t & Heq & Hd & Hs).
  rewrite fold_distance_table in Heq by assumption.
  exists t. auto.
Qed.

End RankFacts.

Lemma shown_from_nil {A : Type} i K : @shown_from A i K [] = [].
Proof.
  unfold shown_from. destruct (K <? i)%Z; [|rewrite firstn_nil]; reflexivity.
Qed.

Lemma shown_from_stop {A : Type} K (l : list A) : shown_from K K l = [].
Proof.
  unfold shown_from. rewrite Z.ltb_irrefl, Z.sub_diag. reflexivity.
Qed.

Lemma shown_from_cons {A : Type} i K (e : A) l :
  i <> K -> shown_from i K (e :: l) = e :: shown_from (i + 1) K l.
Proof.
  intros Hne. unfold shown_from.
  destruct (Z.ltb_spec K i) as [Hlt|Hge];
    destruct (Z.ltb_spec K (i + 1)) as [Hlt'|Hge']; try lia.
  - reflexivity.
  - replace (Z.to_nat (K - i)) with (S (Z.to_nat (K - (i + 1)))) by lia.
    reflexivity.
Qed.

Lemma shown_from_all {A : Type} K (l : list A) :
  (K < 0)%Z -> shown_from 0 K l = l.
Proof.
  intros H. unfold shown_from.
  destruct (Z.ltb_spec K 0); [reflexivity|lia].
Qed.

Lemma shown_from_firstn {A : Type} (K : nat) (l : list A) :
  shown_from 0 (Z.of_nat K) l = firstn K l.
Proof.
  unfold shown_from. destruct (Z.ltb_spec (Z.of_nat K) 0); [lia|].
  rewrite Z.sub_0_r, Nat2Z.id. reflexivity.
Qed.

Lemma trnns_present_loop_ok descs K l : forall i,
  (forall e, In e l -> In (fst e) (map fst descs)) ->
  exists t rows,
    Trnns.present_loop descs K i l = (Ok tt, t) /\
    distance_calls t = [] /\
    stdout_text t = concat_str rows /\
    Forall2 (trnns_shows descs) (shown_from i K l) rows.
Proof.
  induction l as [|[fpr n] l IH]; intros i Hkeys.
  - exists [], []. rewrite shown_from_nil. cbn. auto.
  - cbn [Trnns.present_loop]. destruct (Z.eqb_spec i K) as [->|Hne].
    + exists [], []. rewrite shown_from_stop. cbn. auto.
    + rewrite shown_from_cons by assumption.
      destruct (dict_get fpr descs) as [desc|] eqn:Hget.
      2:{ apply dict_get_None in Hget. exfalso. apply Hget.
          apply (Hkeys (fpr, n)). left. reflexivity. }
      destruct (IH (i + 1)%Z) as (t & rows & Heq & Hd & Hs & Hrows).
      { intros e He. apply Hkeys. right. exact He. }
      destruct (print_desc_ok desc) as (line & Hline & Hrow).
      rewrite format_distance_comma, bind_lift_ok.
      unfold print_noend. rewrite bind_emit.
      unfold dict_getitem. rewrite Hget, bind_lift_ok.
      rewrite Hline, bind_ok, Heq. cbn [fst snd].
      eexists. exists (trnns_row desc n :: rows).
      split; [reflexivity|]. split; [exact Hd|]. split.
      * cbn [stdout_text app concat_str]. rewrite Hs, <- Hrow.
        rewrite !append_assoc. reflexivity.
      * constructor; [|exact Hrows]. exists desc. auto.
Qed.

Section TrnnrFacts.

Variable colored : string -> string -> string.
Variable tabulate : list (list string) -> string.

Lemma format_desc_total desc ref_desc use_colour : exists line,
  Trnnr.format_desc colored desc ref_desc use_colour = Ok line.
Proof.
  unfold Trnnr.format_desc. rewrite !desc_to_str_ok. eexists. reflexivity.
Qed.

Lemma trnnr_present_loop_ok descs relay_fpr reference K use_colour l :
  dict_get relay_fpr descs = Some reference ->
  forall i lines,
  (forall e, In e l -> In (fst e) (map fst descs)) ->
  exists rows,
    Trnnr.present_loop colored descs relay_fpr K use_colour i l lines
      = (Ok (lines ++ rows), []) /\
    Forall2 (trnnr_shows colored descs reference use_colour)
            (shown_from i K l) rows.
Proof.
  intros Href.
  induction l as [|[fpr n] l IH]; intros i lines Hkeys.
  - exists []. rewrite shown_from_nil, app_nil_r. cbn. auto.
  - cbn [Trnnr.present_loop]. destruct (Z.eqb_spec i K) as [->|Hne].
    + exists []. rewrite shown_from_stop, app_nil_r. cbn. auto.
    + rewrite shown_from_cons by assumption.
      destruct (dict_get fpr descs) as [desc|] eqn:Hget.
      2:{ apply dict_get_None in Hget. exfalso. apply Hget.
          apply (Hkeys (fpr, n)). left. reflexivity. }
      destruct (format_desc_total desc reference use_colour) as [line Hline].
      set (row := rjust 3 (str_of_int (Z.of_nat n)) :: line).
      destruct (IH (i + 1)%Z (lines ++ [row])) as (rows & Heq & Hrows).
      { intros e He. apply Hkeys. right. exact He. }
      unfold dict_getitem. rewrite Hget, Href, !bind_lift_ok.
      rewrite Hline, bind_lift_ok, format_distance, bind_lift_ok.
      fold row. rewrite Heq.
      exists (row :: rows). split.
      * rewrite <- app_assoc. reflexivity.
      * constructor; [|exact Hrows]. exists desc, line. auto.
Qed.

End TrnnrFacts.

(** The keys of the ranking are the keys of the dictionary. *)
Lemma sort_dists_keys reference descs e :
  In e (sort_dists (distance_table reference descs)) ->
  In (fst e) (map fst descs).
Proof.
  unfold sort_dists, dict_items. intros H.
  apply (Permutation_in _ (sorted_perm snd _)) in H.
  unfold distance_table in H. apply in_map_iff in H.
  destruct H as (kv & <- & Hkv). cbn. apply in_map, Hkv.
Qed.

(** ** [process_descriptors] as a whole *)

Lemma trnns_process_found query relay_fpr K descs reference :
  fst (fetch_descriptors query) = Ok descs ->
  dict_get relay_fpr descs = Some reference ->
  exists t rows,
    Trnns.process_descriptors query relay_fpr K = (Ok 0%Z, t) /\
    distance_calls t =
      map (fun kv => (canonical reference, canonical (snd kv))) descs /\
    stdout_text t = (Trnns.header ++ newline ++ concat_str rows)%string /\
    Forall2 (trnns_shows descs)
            (shown_from 0 K (sort_dists (distance_table reference descs)))
            rows.
Proof.
  intros Hfetch Href.
  destruct (fetch_descriptors_ok query) as (descs' & t0 & Hq & Hf & Hd0 & Hs0).
  rewrite Hq in Hfetch. cbn in Hfetch. injection Hfetch as ->.
  destruct (rank_ok Trnns.to_str trnns_to_str_ok reference descs Hf)
    as (t1 & Hrank & Hd1 & Hs1).
  destruct (trnns_present_loop_ok descs K
              (sort_dists (distance_table reference descs)) 0%Z
              (sort_dists_keys reference descs))
    as (t2 & rows & Hpres & Hd2 & Hs2 & Hrows).
  unfold Trnns.process_descriptors.
  rewrite Hq, bind_ok. cbn [fst snd]. rewrite Href.
  rewrite trnns_to_str_ok, bind_lift_ok, Hrank, bind_ok.
  unfold log_info, print. rewrite !bind_emit, Hpres, bind_ok.
  cbn [fst snd ret].
  eexists. exists rows. split; [reflexivity|]. split; [|split].
  - rewrite !distance_calls_app, Hd0, Hd1. cbn.
    rewrite distance_calls_app, Hd2. cbn. rewrite app_nil_r. reflexivity.
  - rewrite !stdout_text_app, Hs0, Hs1. cbn [stdout_text append].
    rewrite stdout_text_app, Hs2. cbn [stdout_text].
    rewrite append_nil_r, append_assoc. reflexivity.
  - exact Hrows.
Qed.

Lemma trnns_process_missing query relay_fpr K descs :
  fst (fetch_descriptors query) = Ok descs ->
  dict_get relay_fpr descs = None ->
  exists t,
    Trnns.process_descriptors query relay_fpr K = (Ok 1%Z, t) /\
    distance_calls t = [] /\ stdout_text t = "" /\
    In (EvLog CRITICAL (LogText "Reference relay not found in descriptors."))
       t.
Proof.
  intros Hfetch Href.
  destruct (fetch_descriptors_ok query) as (descs' & t0 & Hq & Hf & Hd0 & Hs0).
  rewrite Hq in Hfetch. cbn in Hfetch. injection Hfetch as ->.
  unfold Trnns.process_descriptors.
  rewrite Hq, bind_ok. cbn [fst snd]. rewrite Href.
  unfold log_critical. rewrite bind_emit. cbn [fst snd ret].
  eexists. split; [reflexivity|]. split; [|split].
  - rewrite distance_calls_app, Hd0. reflexivity.
  - rewrite stdout_text_app, Hs0. reflexivity.
  - apply in_or_app. right. left. reflexivity.
Qed.

Section TrnnrProcess.

Variable colored : string -> string -> string.
Variable tabulate : list (list string) -> string.

Lemma trnnr_process_found query relay_fpr K use_colour descs reference :
  fst (fetch_descriptors query) = Ok descs ->
  dict_get relay_fpr descs = Some reference ->
  exists t rows,
    Trnnr.process_descriptors colored tabulate query relay_fpr K use_colour
      = (Ok 0%Z, t) /\
    distance_calls t =
      map (fun kv => (canonical reference, canonical (snd kv))) descs /\
    stdout_text t = (tabulate (Trnnr.header :: rows) ++ newline)%string /\
    Forall2 (trnnr_shows colored descs reference use_colour)
            (shown_from 0 K (sort_dists (distance_table reference descs)))
            rows.
Proof.
  intros Hfetch Href.
  destruct (fetch_descriptors_ok query) as (descs' & t0 & Hq & Hf & Hd0 & Hs0).
  rewrite Hq in Hfetch. cbn in Hfetch. injection Hfetch as ->.
  destruct (rank_ok Trnnr.to_str trnnr_to_str_ok reference descs Hf)
    as (t1 & Hrank & Hd1 & Hs1).
  destruct (trnnr_present_loop_ok colored descs relay_fpr reference K
              use_colour (sort_dists (distance_table reference descs)) Href
              0%Z [Trnnr.header] (sort_dists_keys reference descs))
    as (rows & Hpres & Hrows).
  unfold Trnnr.process_descriptors.
  rewrite Hq, bind_ok. cbn [fst snd]. rewrite Href.
  rewrite trnnr_to_str_ok, bind_lift_ok, Hrank, bind_ok.
  unfold log_info, print. rewrite !bind_emit, Hpres, bind_ok, bind_emit.
  cbn [fst snd ret app].
  eexists. exists rows. split; [reflexivity|]. split; [|split].
  - rewrite !distance_calls_app, Hd0, Hd1. cbn.
    rewrite app_nil_r. reflexivity.
  - rewrite !stdout_text_app, Hs0, Hs1. cbn [stdout_text append].
    rewrite append_nil_r. reflexivity.
  - exact Hrows.
Qed.

Lemma trnnr_process_missing query relay_fpr K use_colour descs :
  fst (fetch_descriptors query) = Ok descs ->
  dict_get relay_fpr descs = None ->
  exists t,
    Trnnr.process_descriptors colored tabulate query relay_fpr K use_colour
      = (Ok 1%Z, t) /\
    distance_calls t = [] /\ stdout_text t = "" /\
    In (EvLog CRITICAL (LogText "Reference relay not found in descriptors."))
       t.
Proof.
  intros Hfetch Href.
  destruct (fetch_descriptors_ok query) as (descs' & t0 & Hq & Hf & Hd0 & Hs0).
  rewrite Hq in Hfetch. cbn in Hfetch. injection Hfetch as ->.
  unfold Trnnr.process_descriptors.
  rewrite Hq, bind_ok. cbn [fst snd]. rewrite Href.
  unfold log_critical. rewrite bind_emit. cbn [fst snd ret].
  eexists. split; [reflexivity|]. split; [|split].
  - rewrite distance_calls_app, Hd0. reflexivity.
  - rewrite stdout_text_app, Hs0. reflexivity.
  - apply in_or_app. right. left. reflexivity.
Qed.

End TrnnrProcess.

(** * The claims *)

(** C1: the ranking is the distance table sorted ascending by distance (a
    stable rearrangement of the table), and for a result count [K >= 0] both
    scripts print the header and then the rows of the first [K] ranking
    entries, in that order.  For the three sample relays A, B, C, whose
    distances to A are 0, 3 and 1, and [K = 2], the rows are A then C. *)
Theorem ranking_ascending_first_K_shown :
  (forall colored tabulate query relay_fpr descs reference use_colour
          (K : nat),
     fst (fetch_descriptors query) = Ok descs ->
     dict_get relay_fpr descs = Some reference ->
     exists dists,
       fst (rank Trnns.to_str (canonical reference) descs) = Ok dists /\
       fst (rank Trnnr.to_str (canonical reference) descs) = Ok dists /\
       Sorted by_distance (sort_dists dists) /\
       Permutation (sort_dists dists) dists /\
       (forall d, filter (fun e => (snd e =? d)%nat) (sort_dists dists) =
                  filter (fun e => (snd e =? d)%nat) dists) /\
       (exists t rows,
          Trnns.process_descriptors query relay_fpr (Z.of_nat K)
            = (Ok 0%Z, t) /\
          stdout_text t
            = (Trnns.header ++ newline ++ concat_str rows)%string /\
          Forall2 (trnns_shows descs) (firstn K (sort_dists dists)) rows) /\
       (exists t rows,
          Trnnr.process_descriptors colored tabulate query relay_fpr
                                    (Z.of_nat K) use_colour = (Ok 0%Z, t) /\
          stdout_text t
            = (tabulate (Trnnr.header :: rows) ++ newline)%string /\
          Forall2 (trnnr_shows colored descs reference use_colour)
                  (firstn K (sort_dists dists)) rows)) /\
  (fst (rank Trnns.to_str (canonical Sample.relayA) Sample.descsABC)
     = Ok [(Sample.fprA, 0); (Sample.fprB, 3); (Sample.fprC, 1)] /\
   sort_dists [(Sample.fprA, 0); (Sample.fprB, 3); (Sample.fprC, 1)]
     = [(Sample.fprA, 0); (Sample.fprC, 1); (Sample.fprB, 3)] /\
   stdout_text (snd (Trnns.process_descriptors Sample.queryABC Sample.fprA 2))
     = (Trnns.header ++ newline ++ trnns_row Sample.relayA 0
        ++ trnns_row Sample.relayC 1)%string /\
   forall colored tabulate line_A line_C,
     Trnnr.format_desc colored Sample.relayA Sample.relayA false = Ok line_A ->
     Trnnr.format_desc colored Sample.relayC Sample.relayA false = Ok line_C ->
     stdout_text (snd (Trnnr.process_descriptors colored tabulate
                         Sample.queryABC Sample.fprA 2 false))
     = (tabulate [Trnnr.header; "  0" :: line_A; "  1" :: line_C]
        ++ newline)%string).
Proof.
  split.
  - intros colored tabulate query relay_fpr descs reference use_colour K
           Hfetch Href.
    exists (distance_table reference descs).
    assert (Hf : fetched descs).
    { destruct (fetch_descriptors_ok query) as (d' & t0 & Hq & Hf & _).
      rewrite Hq in Hfetch. cbn in Hfetch. congruence. }
    split; [|split; [|split; [|split; [|split; [|split]]]]].
    + destruct (rank_ok Trnns.to_str trnns_to_str_ok reference descs Hf)
        as (t & -> & _). reflexivity.
    + destruct (rank_ok Trnnr.to_str trnnr_to_str_ok reference descs Hf)
        as (t & -> & _). reflexivity.
    + apply (sorted_sorted snd).
    + apply (sorted_perm snd).
    + intros d. apply (sorted_stable snd).
    + destruct (trnns_process_found query relay_fpr (Z.of_nat K) descs
                  reference Hfetch Href) as (t & rows & Hp & _ & Hs & Hrows).
      rewrite shown_from_firstn in Hrows. exists t, rows. auto.
    + destruct (trnnr_process_found colored tabulate query relay_fpr
                  (Z.of_nat K) use_colour descs reference Hfetch Href)
        as (t & rows & Hp & _ & Hs & Hrows).
      rewrite shown_from_firstn in Hrows. exists t, rows. auto.
  - split; [vm_compute; reflexivity|].
    split; [vm_compute; reflexivity|].
    split; [vm_compute; reflexivity|].
    intros colored tabulate line_A line_C HA HC.
    vm_compute in HA, HC. injection HA as <-. injection HC as <-.
    symmetry. etransitivity; [symmetry; apply append_nil_r|].
    vm_compute. reflexivity.
Qed.

Lemma ranking_ascending_first_K_shown_witness :
  fst (fetch_descriptors Sample.queryABC) = Ok Sample.descsABC /\
  dict_get Sample.fprA Sample.descsABC = Some Sample.relayA /\
  exists dists,
    fst (rank Trnns.to_str (canonical Sample.relayA) Sample.descsABC)
      = Ok dists /\
    Sorted by_distance (sort_dists dists).
Proof.
  split; [reflexivity|]. split; [reflexivity|].
  destruct (proj1 ranking_ascending_first_K_shown Sample.colored
              Sample.tabulate Sample.queryABC Sample.fprA Sample.descsABC
              Sample.relayA false 2%nat eq_refl eq_refl)
    as (dists & H1 & _ & H2 & _).
  exists dists. split; assumption.
Defined.

Lemma fetched_of_query query descs :
  fst (fetch_descriptors query) = Ok descs -> fetched descs.
Proof.
  intros Hfetch.
  destruct (fetch_descriptors_ok query) as (d' & t0 & Hq & Hf & _).
  rewrite Hq in Hfetch. cbn in Hfetch. congruence.
Qed.

Lemma ranking_of_table query descs reference ranking :
  fst (fetch_descriptors query) = Ok descs ->
  ranking_of reference descs ranking ->
  ranking = sort_dists (distance_table reference descs).
Proof.
  intros Hfetch (dists & H1 & _ & ->).
  apply fetched_of_query in Hfetch.
  destruct (rank_ok Trnns.to_str trnns_to_str_ok reference descs Hfetch)
    as (t & Heq & _).
  rewrite Heq in H1. cbn in H1. congruence.
Qed.

Lemma distance_table_keys reference descs :
  map fst (distance_table reference descs) = map fst descs.
Proof. unfold distance_table. rewrite map_map. reflexivity. Qed.

(** C2: when the reference fingerprint is not a key of the fetched
    dictionary, [process_descriptors] returns 1, never calls the distance
    function and writes nothing to standard output; it logs the critical
    message. *)
Theorem missing_reference_exits_1 :
  forall colored tabulate query relay_fpr descs K use_colour,
    fst (fetch_descriptors query) = Ok descs ->
    ~ In relay_fpr (map fst descs) ->
    (exists t,
       Trnns.process_descriptors query relay_fpr K = (Ok 1%Z, t) /\
       distance_calls t = [] /\ stdout_text t = "" /\
       In (EvLog CRITICAL
                 (LogText "Reference relay not found in descriptors.")) t) /\
    (exists t,
       Trnnr.process_descriptors colored tabulate query relay_fpr K
                                 use_colour = (Ok 1%Z, t) /\
       distance_calls t = [] /\ stdout_text t = "" /\
       In (EvLog CRITICAL
                 (LogText "Reference relay not found in descriptors.")) t).
Proof.
  intros colored tabulate query relay_fpr descs K use_colour Hfetch Hkey.
  apply dict_get_None in Hkey. split.
  - apply (trnns_process_missing query relay_fpr K descs Hfetch Hkey).
  - apply (trnnr_process_missing colored tabulate query relay_fpr K
             use_colour descs Hfetch Hkey).
Qed.

Lemma missing_reference_exits_1_witness :
  fst (fetch_descriptors Sample.queryABC) = Ok Sample.descsABC /\
  ~ In Sample.fprX (map fst Sample.descsABC) /\
  exists t,
    Trnns.process_descriptors Sample.queryABC Sample.fprX 20 = (Ok 1%Z, t) /\
    distance_calls t = [] /\ stdout_text t = "".
Proof.
  assert (Hkey : ~ In Sample.fprX (map fst Sample.descsABC)).
  { cbn. intros [H|[H|[H|[]]]]; discriminate H. }
  split; [reflexivity|]. split; [exact Hkey|].
  destruct (missing_reference_exits_1 Sample.colored Sample.tabulate
              Sample.queryABC Sample.fprX Sample.descsABC 20%Z false
              eq_refl Hkey) as [(t & H1 & H2 & H3 & _) _].
  exists t. auto.
Defined.

(** C3: when the reference is found, the first loop returns a table with
    the keys of the fetched dictionary, each once and in the same order; the
    entry of every descriptor, the reference included, is the distance
    between the reference string and that descriptor's string; and the
    distance function is called once per descriptor, whatever the result
    count. *)
Theorem ranking_covers_every_descriptor :
  forall colored tabulate query relay_fpr descs reference,
    fst (fetch_descriptors query) = Ok descs ->
    dict_get relay_fpr descs = Some reference ->
    exists dists t,
      rank Trnns.to_str (canonical reference) descs = (Ok dists, t) /\
      rank Trnnr.to_str (canonical reference) descs = (Ok dists, t) /\
      map fst dists = map fst descs /\
      NoDup (map fst dists) /\
      List.length dists = List.length descs /\
      (forall fpr desc,
         dict_get fpr descs = Some desc ->
         dict_get fpr dists =
           Some (Levenshtein.distance (canonical reference)
                                      (canonical desc))) /\
      (exists d, dict_get relay_fpr dists = Some d) /\
      distance_calls t =
        map (fun kv => (canonical reference, canonical (snd kv))) descs /\
      (forall K use_colour,
         distance_calls (snd (Trnns.process_descriptors query relay_fpr K))
           = distance_calls t /\
         distance_calls (snd (Trnnr.process_descriptors colored tabulate
                                query relay_fpr K use_colour))
           = distance_calls t).
Proof.
  intros colored tabulate query relay_fpr descs reference Hfetch Href.
  pose proof (fetched_of_query _ _ Hfetch) as Hf.
  destruct (rank_ok Trnns.to_str trnns_to_str_ok reference descs Hf)
    as (t & Hrank & Hd & _).
  assert (Hlook : forall fpr desc,
             dict_get fpr descs = Some desc ->
             dict_get fpr (distance_table reference descs) =
               Some (Levenshtein.distance (canonical reference)
                                          (canonical desc))).
  { intros fpr desc Hget. apply In_dict_get.
    - rewrite distance_table_keys. apply Hf.
    - apply dict_get_In in Hget. unfold distance_table.
      apply in_map_iff. exists (fpr, desc). auto. }
  exists (distance_table reference descs), t.
  split; [exact Hrank|]. split.
  { unfold rank in *. rewrite <- Hrank. clear.
    generalize 0%Z, (@nil (string * nat)).
    induction (dict_items descs) as [|[k d] l IH]; intros i acc.
    - reflexivity.
    - cbn [rank_loop]. rewrite trnns_to_str_ok, trnnr_to_str_ok.
      rewrite !bind_lift_ok, !call_distance_eq, !bind_ok.
      cbn [fst snd]. rewrite IH. reflexivity. }
  split; [apply distance_table_keys|].
  split; [rewrite distance_table_keys; apply Hf|].
  split; [unfold distance_table; apply length_map|].
  split; [exact Hlook|].
  split; [eexists; apply (Hlook _ _ Href)|].
  split; [exact Hd|].
  intros K use_colour. split.
  - destruct (trnns_process_found query relay_fpr K descs reference
                Hfetch Href) as (t' & rows & -> & Hd' & _).
    cbn [snd]. congruence.
  - destruct (trnnr_process_found colored tabulate query relay_fpr K
                use_colour descs reference Hfetch Href)
      as (t' & rows & -> & Hd' & _).
    cbn [snd]. congruence.
Qed.

Lemma ranking_covers_every_descriptor_witness :
  fst (fetch_descriptors Sample.queryABC) = Ok Sample.descsABC /\
  dict_get Sample.fprA Sample.descsABC = Some Sample.relayA /\
  exists dists t,
    rank Trnns.to_str (canonical Sample.relayA) Sample.descsABC
      = (Ok dists, t) /\
    map fst dists = map fst Sample.descsABC.
Proof.
  split; [reflexivity|]. split; [reflexivity|].
  destruct (ranking_covers_every_descriptor Sample.colored Sample.tabulate
              Sample.queryABC Sample.fprA Sample.descsABC Sample.relayA
              eq_refl eq_refl) as (dists & t & H1 & _ & H2 & _).
  exists dists, t. auto.
Defined.

(** C4: with a result count of 0 the second loop stops before its first
    row, whatever the ranking holds, so [trnns.py] prints the header line
    only and [trnnr.py] tabulates the header row only. *)
Theorem zero_count_header_only :
  (forall descs ranking,
     Trnns.present_loop descs 0 0 ranking = (Ok tt, [])) /\
  (forall colored descs relay_fpr use_colour ranking lines,
     Trnnr.present_loop colored descs relay_fpr 0 use_colour 0 ranking lines
       = (Ok lines, [])) /\
  (forall colored tabulate query relay_fpr descs reference use_colour,
     fst (fetch_descriptors query) = Ok descs ->
     dict_get relay_fpr descs = Some reference ->
     (exists t,
        Trnns.process_descriptors query relay_fpr 0 = (Ok 0%Z, t) /\
        stdout_text t = (Trnns.header ++ newline)%string) /\
     (exists t,
        Trnnr.process_descriptors colored tabulate query relay_fpr 0
                                  use_colour = (Ok 0%Z, t) /\
        stdout_text t = (tabulate [Trnnr.header] ++ newline)%string)).
Proof.
  split; [|split].
  - intros descs [|e ranking]; reflexivity.
  - intros colored descs relay_fpr use_colour [|e ranking] lines; reflexivity.
  - intros colored tabulate query relay_fpr descs reference use_colour
           Hfetch Href. split.
    + destruct (trnns_process_found query relay_fpr 0 descs reference
                  Hfetch Href) as (t & rows & Hp & _ & Hs & Hrows).
      rewrite shown_from_stop in Hrows. inversion Hrows; subst.
      exists t. split; [exact Hp|]. rewrite Hs. cbn [concat_str].
      rewrite append_nil_r. reflexivity.
    + destruct (trnnr_process_found colored tabulate query relay_fpr 0
                  use_colour descs reference Hfetch Href)
        as (t & rows & Hp & _ & Hs & Hrows).
      rewrite shown_from_stop in Hrows. inversion Hrows; subst.
      exists t. auto.
Qed.

Lemma zero_count_header_only_witness :
  fst (fetch_descriptors Sample.queryABC) = Ok Sample.descsABC /\
  dict_get Sample.fprA Sample.descsABC = Some Sample.relayA /\
  exists t,
    Trnns.process_descriptors Sample.queryABC Sample.fprA 0 = (Ok 0%Z, t) /\
    stdout_text t = (Trnns.header ++ newline)%string.
Proof.
  split; [reflexivity|]. split; [reflexivity|].
  exact (proj1 (proj2 (proj2 zero_count_header_only) Sample.colored
                  Sample.tabulate Sample.queryABC Sample.fprA
                  Sample.descsABC Sample.relayA false eq_refl eq_refl)).
Defined.

Lemma ranking_keys query descs reference ranking :
  fst (fetch_descriptors query) = Ok descs ->
  ranking_of reference descs ranking ->
  Permutation (map fst ranking) (map fst descs) /\
  NoDup (map fst ranking) /\
  List.length ranking = List.length descs.
Proof.
  intros Hfetch Hrank.
  rewrite (ranking_of_table _ _ _ _ Hfetch Hrank).
  pose proof (fetched_of_query _ _ Hfetch) as [Hnd _].
  assert (Hperm : Permutation
            (map fst (sort_dists (distance_table reference descs)))
            (map fst descs)).
  { rewrite <- (distance_table_keys reference descs).
    apply Permutation_map, (sorted_perm snd). }
  split; [exact Hperm|]. split.
  - apply (Permutation_NoDup (Permutation_sym Hperm) Hnd).
  - rewrite <- (length_map fst), <- (length_map fst descs).
    apply Permutation_length, Hperm.
Qed.

(** C5: with a result count above the number of candidates, both scripts
    print one row for every entry of the ranking, in ranking order; the
    fingerprints of the ranking are the keys of the fetched dictionary, each
    exactly once. *)
Theorem large_count_shows_every_candidate :
  forall colored tabulate query relay_fpr descs reference use_colour K
         ranking,
    fst (fetch_descriptors query) = Ok descs ->
    dict_get relay_fpr descs = Some reference ->
    ranking_of reference descs ranking ->
    (Z.of_nat (List.length ranking) < K)%Z ->
    Permutation (map fst ranking) (map fst descs) /\
    NoDup (map fst ranking) /\
    (exists t rows,
       Trnns.process_descriptors query relay_fpr K = (Ok 0%Z, t) /\
       stdout_text t = (Trnns.header ++ newline ++ concat_str rows)%string /\
       Forall2 (trnns_shows descs) ranking rows /\
       List.length rows = List.length descs) /\
    (exists t rows,
       Trnnr.process_descriptors colored tabulate query relay_fpr K
                                 use_colour = (Ok 0%Z, t) /\
       stdout_text t = (tabulate (Trnnr.header :: rows) ++ newline)%string /\
       Forall2 (trnnr_shows colored descs reference use_colour) ranking rows /\
       List.length rows = List.length descs).
Proof.
  intros colored tabulate query relay_fpr descs reference use_colour K
         ranking Hfetch Href Hrank HK.
  destruct (ranking_keys _ _ _ _ Hfetch Hrank) as (Hperm & Hnd & Hlen).
  assert (Hall : shown_from 0 K ranking = ranking).
  { unfold shown_from. destruct (Z.ltb_spec K 0); [reflexivity|].
    apply firstn_all2. lia. }
  rewrite (ranking_of_table _ _ _ _ Hfetch Hrank) in Hall.
  split; [exact Hperm|]. split; [exact Hnd|]. split.
  - destruct (trnns_process_found query relay_fpr K descs reference
                Hfetch Href) as (t & rows & Hp & _ & Hs & Hrows).
    rewrite Hall, <- (ranking_of_table _ _ _ _ Hfetch Hrank) in Hrows.
    exists t, rows. repeat split; try assumption.
    rewrite <- (Forall2_length Hrows). exact Hlen.
  - destruct (trnnr_process_found colored tabulate query relay_fpr K
                use_colour descs reference Hfetch Href)
      as (t & rows & Hp & _ & Hs & Hrows).
    rewrite Hall, <- (ranking_of_table _ _ _ _ Hfetch Hrank) in Hrows.
    exists t, rows. repeat split; try assumption.
    rewrite <- (Forall2_length Hrows). exact Hlen.
Qed.

Lemma sample_ranking :
  ranking_of Sample.relayA Sample.descsABC
    [(Sample.fprA, 0); (Sample.fprC, 1); (Sample.fprB, 3)].
Proof.
  exists [(Sample.fprA, 0); (Sample.fprB, 3); (Sample.fprC, 1)].
  split; [vm_compute; reflexivity|].
  split; [vm_compute; reflexivity|].
  vm_compute. reflexivity.
Defined.

Lemma large_count_shows_every_candidate_witness :
  fst (fetch_descriptors Sample.queryABC) = Ok Sample.descsABC /\
  dict_get Sample.fprA Sample.descsABC = Some Sample.relayA /\
  ranking_of Sample.relayA Sample.descsABC
    [(Sample.fprA, 0); (Sample.fprC, 1); (Sample.fprB, 3)] /\
  (Z.of_nat 3 < 20)%Z /\
  exists t rows,
    Trnns.process_descriptors Sample.queryABC Sample.fprA 20 = (Ok 0%Z, t) /\
    Forall2 (trnns_shows Sample.descsABC)
            [(Sample.fprA, 0); (Sample.fprC, 1); (Sample.fprB, 3)] rows.
Proof.
  split; [reflexivity|]. split; [reflexivity|].
  split; [exact sample_ranking|]. split; [reflexivity|].
  destruct (large_count_shows_every_candidate Sample.colored Sample.tabulate
              Sample.queryABC Sample.fprA Sample.descsABC Sample.relayA
              false 20%Z _ eq_refl eq_refl sample_ranking eq_refl)
    as (_ & _ & (t & rows & H1 & _ & H2 & _) & _).
  exists t, rows. auto.
Defined.

(** C9: with a negative result count the index of the second loop never
    equals the count, so nothing is cut off: both scripts print one row for
    every entry of the ranking, and the ranking is not empty. *)
Theorem negative_count_shows_every_candidate :
  forall colored tabulate query relay_fpr descs reference use_colour K
         ranking,
    fst (fetch_descriptors query) = Ok descs ->
    dict_get relay_fpr descs = Some reference ->
    ranking_of reference descs ranking ->
    (K < 0)%Z ->
    ranking <> [] /\
    (exists t rows,
       Trnns.process_descriptors query relay_fpr K = (Ok 0%Z, t) /\
       stdout_text t = (Trnns.header ++ newline ++ concat_str rows)%string /\
       Forall2 (trnns_shows descs) ranking rows /\
       List.length rows = List.length descs) /\
    (exists t rows,
       Trnnr.process_descriptors colored tabulate query relay_fpr K
                                 use_colour = (Ok 0%Z, t) /\
       stdout_text t = (tabulate (Trnnr.header :: rows) ++ newline)%string /\
       Forall2 (trnnr_shows colored descs reference use_colour) ranking rows /\
       List.length rows = List.length descs).
Proof.
  intros colored tabulate query relay_fpr descs reference use_colour K
         ranking Hfetch Href Hrank HK.
  destruct (ranking_keys _ _ _ _ Hfetch Hrank) as (Hperm & Hnd & Hlen).
  pose proof (shown_from_all K
                (sort_dists (distance_table reference descs)) HK) as Hall.
  split; [|split].
  - intros ->. apply dict_get_In in Href.
    destruct descs; [destruct Href | discriminate Hlen].
  - destruct (trnns_process_found query relay_fpr K descs reference
                Hfetch Href) as (t & rows & Hp & _ & Hs & Hrows).
    rewrite Hall, <- (ranking_of_table _ _ _ _ Hfetch Hrank) in Hrows.
    exists t, rows. repeat split; try assumption.
    rewrite <- (Forall2_length Hrows). exact Hlen.
  - destruct (trnnr_process_found colored tabulate query relay_fpr K
                use_colour descs reference Hfetch Href)
      as (t & rows & Hp & _ & Hs & Hrows).
    rewrite Hall, <- (ranking_of_table _ _ _ _ Hfetch Hrank) in Hrows.
    exists t, rows. repeat split; try assumption.
    rewrite <- (Forall2_length Hrows). exact Hlen.
Qed.

Lemma negative_count_shows_every_candidate_witness :
  fst (fetch_descriptors Sample.queryABC) = Ok Sample.descsABC /\
  dict_get Sample.fprA Sample.descsABC = Some Sample.relayA /\
  ranking_of Sample.relayA Sample.descsABC
    [(Sample.fprA, 0); (Sample.fprC, 1); (Sample.fprB, 3)] /\
  (-1 < 0)%Z /\
  exists t rows,
    Trnns.process_descriptors Sample.queryABC Sample.fprA (-1)
      = (Ok 0%Z, t) /\
    Forall2 (trnns_shows Sample.descsABC)
            [(Sample.fprA, 0); (Sample.fprC, 1); (Sample.fprB, 3)] rows.
Proof.
  split; [reflexivity|]. split; [reflexivity|].
  split; [exact sample_ranking|]. split; [reflexivity|].
  destruct (negative_count_shows_every_candidate Sample.colored
              Sample.tabulate Sample.queryABC Sample.fprA Sample.descsABC
              Sample.relayA false (-1)%Z _ eq_refl eq_refl sample_ranking
              eq_refl)
    as (_ & (t & rows & H1 & _ & H2 & _) & _).
  exists t, rows. auto.
Defined.

(** ** Decimal numerals *)

Lemma str_of_int_parses z : int_of_str (str_of_int z) = Some z.
Proof.
  unfold int_of_str, str_of_int. rewrite NilZero.isi.
  - cbn. rewrite DecimalZ.of_to. reflexivity.
  - destruct z; cbn; try discriminate.
    intros [= H]. apply (DecimalPos.Unsigned.to_uint_nonnil _ H).
  - destruct z; cbn; try discriminate.
    intros [= H]. apply (DecimalPos.Unsigned.to_uint_nonnil _ H).
Qed.

Lemma pos_to_uint_no_leading_zero p u : Pos.to_uint p <> Decimal.D0 u.
Proof.
  intros H.
  assert (Hn : Decimal.unorm (Pos.to_uint p) = Pos.to_uint p).
  { rewrite <- DecimalPos.Unsigned.to_of, DecimalPos.Unsigned.of_to.
    reflexivity. }
  rewrite H in Hn. unfold Decimal.unorm in Hn. cbn [Decimal.nzhead] in Hn.
  destruct (Decimal.nzhead u) eqn:Hu.
  - injection Hn as <-.
    apply (DecimalPos.Unsigned.to_uint_nonzero p). exact H.
  - apply (DecimalFacts.nzhead_nonzero u u). congruence.
  - discriminate.
  - discriminate.
  - discriminate.
  - discriminate.
  - discriminate.
  - discriminate.
  - discriminate.
  - discriminate.
  - discriminate.
Qed.

Lemma str_of_int_no_padding z c s :
  str_of_int z = String c s -> c <> " "%char /\ (c = "0"%char -> s = "").
Proof.
  unfold str_of_int. destruct z as [|p|p]; cbn [Z.to_int].
  - cbn. intros [= <- <-]. split; [discriminate|reflexivity].
  - pose proof (pos_to_uint_no_leading_zero p) as Hz.
    destruct (Pos.to_uint p) as [|u|u|u|u|u|u|u|u|u|u] eqn:Hu; cbn;
      intros [= <- <-]; (split; [discriminate|]); try discriminate.
    + reflexivity.
    + exfalso. apply (Hz u). reflexivity.
  - cbn. intros [= <- <-]. split; discriminate.
Qed.

(** C6: in both scripts [to_str] never raises and returns the thirteen
    fields nickname, address, or-port, dir-port (0 when missing), version,
    exit policy, average, burst and observed bandwidth, operating system,
    publication time, uptime and contact, in this order with nothing between
    them.  Numbers are written in decimal without padding: the numeral reads
    back as the number, never starts with a space, and starts with 0 only if
    it is "0".  The string is a function of these fields alone: the
    fingerprint does not enter it. *)
Theorem to_str_concatenates_fields :
  (forall d,
     Trnns.to_str d =
       Ok (nickname d ++ address d ++ str_of_int (or_port d)
           ++ str_of_int (match dir_port d with None => 0%Z | Some p => p end)
           ++ tor_version d ++ exit_policy d
           ++ str_of_int (average_bandwidth d)
           ++ str_of_int (burst_bandwidth d)
           ++ str_of_int (observed_bandwidth d)
           ++ operating_system d ++ published d ++ str_of_int (uptime d)
           ++ contact d)%string /\
     Trnnr.to_str d = Trnns.to_str d) /\
  (forall z, int_of_str (str_of_int z) = Some z) /\
  (forall z c s,
     str_of_int z = String c s ->
     c <> " "%char /\ (c = "0"%char -> s = "")) /\
  (forall d fpr,
     Trnns.to_str (with_fingerprint d fpr) = Trnns.to_str d /\
     Trnnr.to_str (with_fingerprint d fpr) = Trnnr.to_str d).
Proof.
  split; [|split; [|split]].
  - intros d. split.
    + apply trnns_to_str_ok.
    + transitivity (Ok (canonical d));
        [apply trnnr_to_str_ok | symmetry; apply trnns_to_str_ok].
  - apply str_of_int_parses.
  - intros z c s H. split; intros; subst; apply (str_of_int_no_padding _ _ _ H).
    reflexivity.
  - intros d fpr. split; reflexivity.
Qed.

(** C7: for a descriptor without a dir-port, [dirport_to_int] gives 0, and
    [to_str] (and [desc_to_str]) return, without raising, the string of the
    same descriptor with dir-port 0; handing [None] to [%d] would raise
    [TypeError]. *)
Theorem missing_dir_port_is_zero :
  forall d,
    dir_port d = None ->
    Trnnr.dirport_to_int (dir_port d) = 0%Z /\
    (exists s,
       Trnns.to_str d = Ok s /\ Trnnr.to_str d = Ok s /\
       Trnns.to_str (with_dir_port d (Some 0%Z)) = Ok s /\
       Trnnr.to_str (with_dir_port d (Some 0%Z)) = Ok s) /\
    (exists s,
       Trnnr.desc_to_str d = Ok s /\
       Trnnr.desc_to_str (with_dir_port d (Some 0%Z)) = Ok s) /\
    format "%d" [VNone] = Raise TypeError.
Proof.
  intros d Hnone. split; [rewrite Hnone; reflexivity|]. split; [|split].
  - exists (canonical d).
    split; [apply trnns_to_str_ok|]. split; [apply trnnr_to_str_ok|].
    rewrite trnns_to_str_ok, trnnr_to_str_ok.
    unfold canonical, with_dir_port. cbn. rewrite Hnone. auto.
  - exists (join_commas (features d)).
    split; [apply desc_to_str_ok|]. rewrite desc_to_str_ok.
    unfold features, with_dir_port. cbn [fingerprint nickname address or_port
      dir_port tor_version operating_system average_bandwidth burst_bandwidth
      observed_bandwidth uptime contact]. rewrite Hnone. reflexivity.
  - reflexivity.
Qed.

Lemma missing_dir_port_is_zero_witness :
  dir_port Sample.relayN = None /\
  exists s, Trnns.to_str Sample.relayN = Ok s /\
            Trnnr.to_str Sample.relayN = Ok s.
Proof.
  split; [reflexivity|].
  destruct (missing_dir_port_is_zero Sample.relayN eq_refl)
    as (_ & (s & H1 & H2 & _) & _).
  exists s. auto.
Defined.

(** ** Strings as character lists *)

Lemma list_ascii_of_string_inj a b :
  list_ascii_of_string a = list_ascii_of_string b -> a = b.
Proof.
  intros H. rewrite <- (string_of_list_ascii_of_string a),
    <- (string_of_list_ascii_of_string b), H. reflexivity.
Qed.

Lemma ascii_eqb_eq x y : Ascii.eqb x y = true <-> x = y.
Proof. apply Ascii.eqb_eq. Qed.

(** C8: the distance is the least number of single-character insertions,
    deletions and substitutions that turn one string into the other, and it
    is a metric: zero from a string to itself (and only then), symmetric,
    and subject to the triangle inequality.  So the distance of a canonical
    string to itself is 0, and the ranking holds the reference fingerprint
    with distance 0. *)
Theorem levenshtein_distance_is_metric :
  (forall a b,
     Levenshtein.edit ascii (list_ascii_of_string a) (list_ascii_of_string b)
                      (Levenshtein.distance a b) /\
     forall n,
       Levenshtein.edit ascii (list_ascii_of_string a)
                        (list_ascii_of_string b) n ->
       Levenshtein.distance a b <= n) /\
  (forall s, Levenshtein.distance s s = 0) /\
  (forall a b, Levenshtein.distance a b = 0 -> a = b) /\
  (forall a b, Levenshtein.distance a b = Levenshtein.distance b a) /\
  (forall a b c,
     Levenshtein.distance a c
     <= Levenshtein.distance a b + Levenshtein.distance b c) /\
  (forall D, Levenshtein.distance (canonical D) (canonical D) = 0) /\
  (forall query relay_fpr descs reference ranking,
     fst (fetch_descriptors query) = Ok descs ->
     dict_get relay_fpr descs = Some reference ->
     ranking_of reference descs ranking ->
     In (relay_fpr, 0) ranking).
Proof.
  unfold Levenshtein.distance.
  split; [|split; [|split; [|split; [|split; [|split]]]]].
  - intros a b. split.
    + apply LevenshteinFacts.distance_list_edit, ascii_eqb_eq.
    + intros n. apply LevenshteinFacts.distance_list_least, ascii_eqb_eq.
  - intros s. apply LevenshteinFacts.distance_list_refl, ascii_eqb_eq.
  - intros a b H. apply list_ascii_of_string_inj.
    apply (LevenshteinFacts.distance_list_zero _ _ ascii_eqb_eq _ _ H).
  - intros a b. apply LevenshteinFacts.distance_list_sym, ascii_eqb_eq.
  - intros a b c. apply LevenshteinFacts.distance_list_triangle, ascii_eqb_eq.
  - intros D. apply LevenshteinFacts.distance_list_refl, ascii_eqb_eq.
  - intros query relay_fpr descs reference ranking Hfetch Href Hrank.
    rewrite (ranking_of_table _ _ _ _ Hfetch Hrank).
    unfold sort_dists, dict_items.
    apply (Permutation_in _ (Permutation_sym (sorted_perm snd _))).
    unfold distance_table. apply in_map_iff.
    exists (relay_fpr, reference). split.
    + cbn [fst snd]. f_equal. unfold Levenshtein.distance.
      apply LevenshteinFacts.distance_list_refl, ascii_eqb_eq.
    + apply dict_get_In, Href.
Qed.

Lemma levenshtein_distance_is_metric_witness :
  fst (fetch_descriptors Sample.queryABC) = Ok Sample.descsABC /\
  dict_get Sample.fprA Sample.descsABC = Some Sample.relayA /\
  ranking_of Sample.relayA Sample.descsABC
    [(Sample.fprA, 0); (Sample.fprC, 1); (Sample.fprB, 3)] /\
  In (Sample.fprA, 0) [(Sample.fprA, 0); (Sample.fprC, 1); (Sample.fprB, 3)].
Proof.
  split; [reflexivity|]. split; [reflexivity|].
  split; [exact sample_ranking|].
  exact (proj2 (proj2 (proj2 (proj2 (proj2 (proj2
           levenshtein_distance_is_metric)))))
           Sample.queryABC Sample.fprA Sample.descsABC Sample.relayA _
           eq_refl eq_refl sample_ranking).
Defined.

(** ** [format_desc] without colours *)

Lemma split_no_comma s : has_comma s = false -> split "," s = [s].
Proof.
  induction s as [|c s IH]; cbn; [reflexivity|].
  intros H. apply orb_false_iff in H. destruct H as [Hc Hs].
  rewrite Hc, (IH Hs). reflexivity.
Qed.

Lemma split_field s rest :
  has_comma s = false ->
  split "," (s ++ "," ++ rest) = s :: split "," rest.
Proof.
  induction s as [|c s IH]; cbn; [reflexivity|].
  intros H. apply orb_false_iff in H. destruct H as [Hc Hs].
  cbn in IH. rewrite Hc, (IH Hs). reflexivity.
Qed.

Lemma split_join l :
  l <> [] -> Forall (fun s => has_comma s = false) l ->
  split "," (join_commas l) = l.
Proof.
  induction l as [|s l IH]; [congruence|].
  intros _ Hall. inversion Hall as [|? ? Hs Hl]; subst.
  destruct l as [|s' l].
  - cbn. apply split_no_comma, Hs.
  - cbn [join_commas]. rewrite split_field by exact Hs.
    f_equal. apply IH; [discriminate | exact Hl].
Qed.

Lemma split_terminated l :
  Forall (fun s => has_comma s = false) l ->
  split "," (concat_str (map (fun s => s ++ ",")%string l)) = l ++ [""].
Proof.
  induction 1 as [|s l Hs Hl IH]; [reflexivity|].
  cbn [map concat_str]. rewrite append_assoc, split_field by exact Hs.
  cbn [app]. f_equal. exact IH.
Qed.

Lemma has_comma_app a b : has_comma (a ++ b) = has_comma a || has_comma b.
Proof.
  induction a as [|c a IH]; cbn; [reflexivity|].
  rewrite IH, orb_assoc. reflexivity.
Qed.

Lemma has_comma_spaces n : has_comma (spaces n) = false.
Proof. induction n; cbn; auto. Qed.

Lemma has_comma_ljust n s : has_comma (ljust n s) = has_comma s.
Proof.
  unfold ljust. rewrite has_comma_app, has_comma_spaces, orb_false_r.
  reflexivity.
Qed.

Lemma has_comma_uint u : has_comma (NilEmpty.string_of_uint u) = false.
Proof. induction u; cbn; auto. Qed.

Lemma has_comma_str_of_int z : has_comma (str_of_int z) = false.
Proof.
  unfold str_of_int.
  destruct (Z.to_int z) as [u|u]; cbn.
  - destruct u; try reflexivity; cbn; apply has_comma_uint.
  - destruct u; try reflexivity; cbn; apply has_comma_uint.
Qed.

Lemma features_comma_free desc :
  comma_free desc -> Forall (fun s => has_comma s = false) (features desc).
Proof.
  intros (H1 & H2 & H3 & H4 & H5 & H6). unfold features.
  repeat constructor; try assumption; apply has_comma_str_of_int.
Qed.

Section PlainFormat.

Variable colored : string -> string -> string.

Lemma pad_blank ref_field : forall acc,
  fold_left (fun acc q => acc ++ Trnnr.format_char colored false q)%string
            (map (fun d => (None, Some d)) (list_ascii_of_string ref_field))
            acc
  = (acc ++ spaces (String.length ref_field))%string.
Proof.
  induction ref_field as [|d r IH]; intros acc; cbn.
  - rewrite append_nil_r. reflexivity.
  - rewrite IH, append_assoc. reflexivity.
Qed.

Lemma plain_field field : forall ref_field acc,
  fold_left (fun acc q => acc ++ Trnnr.format_char colored false q)%string
            (zip_longest field ref_field) acc
  = (acc ++ ljust (String.length ref_field) field)%string.
Proof.
  induction field as [|c f IH]; intros r acc.
  - cbn [zip_longest]. rewrite pad_blank. unfold ljust. cbn.
    rewrite Nat.sub_0_r. reflexivity.
  - destruct r as [|d r]; cbn [zip_longest fold_left Trnnr.format_char].
    + rewrite IH, append_assoc. reflexivity.
    + rewrite andb_false_r, IH, append_assoc. reflexivity.
Qed.

Lemma plain_fields pairs : forall acc,
  fold_left (Trnnr.format_field colored false) pairs acc
  = (acc ++ concat_str
       (map (fun s => s ++ ",")
            (map (fun p => ljust (String.length (snd p)) (fst p)) pairs)))
    %string.
Proof.
  induction pairs as [|[f r] pairs IH]; intros acc.
  - cbn. rewrite append_nil_r. reflexivity.
  - cbn [fold_left map concat_str fst snd]. rewrite IH.
    unfold Trnnr.format_field. rewrite plain_field, !append_assoc.
    reflexivity.
Qed.

(** Without colours and without commas in the values, [format_desc] returns
    the twelve features of the candidate, each filled with spaces up to the
    length of the reference's feature, and an empty string at the end. *)
Lemma format_desc_plain desc ref_desc :
  comma_free desc -> comma_free ref_desc ->
  Trnnr.format_desc colored desc ref_desc false
  = Ok (map (fun p => ljust (String.length (snd p)) (fst p))
            (combine (features desc) (features ref_desc)) ++ [""]).
Proof.
  intros Hd Hr. unfold Trnnr.format_desc. rewrite !desc_to_str_ok.
  rewrite !split_join;
    try (apply features_comma_free; assumption); try discriminate.
  rewrite plain_fields. cbn [append]. f_equal.
  apply split_terminated.
  apply Forall_forall. intros s Hs. apply in_map_iff in Hs.
  destruct Hs as ([f r] & <- & Hin). cbn [fst snd].
  rewrite has_comma_ljust. apply in_combine_l in Hin.
  pose proof (features_comma_free desc Hd) as Hall.
  rewrite Forall_forall in Hall. apply Hall, Hin.
Qed.

End PlainFormat.

(** C10: [format_desc] splits the comma-joined string again at every comma,
    so a comma inside a value breaks the list.  With the contact lines
    "Ops, ops@example.org" and "Noc, noc@example.org" the result has 14
    strings, the contact cut in two; against a reference whose contact has
    no comma the result has 13 strings and the part of the contact after
    the comma is lost. *)
Theorem format_desc_breaks_at_contact_comma :
  forall colored : string -> string -> string,
    Trnnr.desc_to_str Sample.relayP
      = Ok ("AAAAAAAA,falcon,198.51.100.7,9001,9030,0.2.7.6,Linux,"
            ++ "1048576,2097152,524288,86400,Ops, ops@example.org")%string /\
    Trnnr.format_desc colored Sample.relayP Sample.relayQ false
      = Ok ["AAAAAAAA"; "falcon"; "198.51.100.7"; "9001"; "9030"; "0.2.7.6";
            "Linux"; "1048576"; "2097152"; "524288"; "86400"; "Ops";
            " ops@example.org"; ""] /\
    Trnnr.format_desc colored Sample.relayP Sample.relayA false
      = Ok ["AAAAAAAA"; "falcon"; "198.51.100.7"; "9001"; "9030"; "0.2.7.6";
            "Linux"; "1048576"; "2097152"; "524288"; "86400";
            "Ops            "; ""].
Proof.
  intros colored. split; [|split]; vm_compute; reflexivity.
Qed.

(** * Further properties *)

(** ** [fetch_descriptors] *)

Lemma dict_get_set {V : Type} k k' (v : V) (d : dict V) :
  dict_get k (dict_set k' v d) =
  if String.eqb k k' then Some v else dict_get k d.
Proof.
  induction d as [|[k2 v2] d IH]; cbn.
  - reflexivity.
  - destruct (String.eqb_spec k' k2) as [->|Hne]; cbn.
    + destruct (String.eqb_spec k k2); reflexivity.
    + rewrite IH. destruct (String.eqb_spec k k2) as [->|Hne2].
      * destruct (String.eqb_spec k2 k'); [congruence|reflexivity].
      * reflexivity.
Qed.


Lemma find_app_split {A : Type} (p : A -> bool) l1 l2 :
  find p (l1 ++ l2) =
  match find p l1 with
  | Some x => Some x
  | None => find p l2
  end.
Proof.
  induction l1 as [|x l1 IH]; cbn; [reflexivity|].
  destruct (p x); [reflexivity|exact IH].
Qed.

Lemma collect_lookup fpr yielded : forall acc,
  dict_get fpr
    (fold_left (fun descs desc => dict_set (fingerprint desc) desc descs)
               yielded acc) =
  match last_yielded fpr yielded with
  | Some d => Some d
  | None => dict_get fpr acc
  end.
Proof.
  unfold last_yielded.
  induction yielded as [|d l IH]; intros acc; cbn [fold_left rev].
  - reflexivity.
  - rewrite IH, find_app_split, dict_get_set.
    destruct (find _ (rev l)); [reflexivity|].
    cbn [find]. destruct (String.eqb fpr (fingerprint d)); reflexivity.
Qed.




Lemma fetch_descriptors_eq query :
  fetch_descriptors query =
  (Ok (fold_left (fun descs desc => dict_set (fingerprint desc) desc descs)
                 (q_yielded query) []),
   [EvLog match q_exception query with None => INFO | Some _ => CRITICAL end
          match q_exception query with
          | None => LogQueryTook
          | Some exc => LogUnableToRetrieve exc
          end;
    EvLog INFO
          (LogText
             (downloaded_msg
                (List.length
                   (fold_left
                      (fun descs desc =>
                         dict_set (fingerprint desc) desc descs)
                      (q_yielded query) []))))]).
Proof.
  unfold fetch_descriptors. destruct (q_exception query); reflexivity.
Qed.

Lemma find_all_false {A : Type} (p : A -> bool) l :
  (forall x, In x l -> p x = false) -> find p l = None.
Proof.
  induction l as [|x l IH]; cbn; [reflexivity|].
  intros H. rewrite (H x) by auto. apply IH. auto.
Qed.


(** X2: assigning [descs[desc.fingerprint] = desc] in download order makes
    the last descriptor of a fingerprint the one that is kept: if no later
    descriptor of the download has the fingerprint of [d], looking that
    fingerprint up in the fetched dictionary gives [d]. *)
Theorem fetch_descriptors_last_wins :
  forall query before d after,
    q_yielded query = before ++ d :: after ->
    (forall d', In d' after -> fingerprint d' <> fingerprint d) ->
    exists descs t,
      fetch_descriptors query = (Ok descs, t) /\
      dict_get (fingerprint d) descs = Some d.
Proof.
  intros query before d after Hq Hlater. rewrite fetch_descriptors_eq.
  eexists. eexists. split; [reflexivity|].
  rewrite collect_lookup. unfold last_yielded.
  rewrite Hq, rev_app_distr. cbn [rev]. rewrite <- app_assoc.
  rewrite find_app_split, find_all_false.
  - cbn. rewrite String.eqb_refl. reflexivity.
  - intros x Hx. apply in_rev in Hx. apply Hlater in Hx.
    destruct (String.eqb_spec (fingerprint d) (fingerprint x));
      [congruence|reflexivity].
Qed.

Lemma fetch_descriptors_last_wins_witness :
  q_yielded Sample.queryDup
    = [Sample.relayA] ++ Sample.relayP :: [Sample.relayB] /\
  (forall d', In d' [Sample.relayB] ->
              fingerprint d' <> fingerprint Sample.relayP) /\
  exists descs t,
    fetch_descriptors Sample.queryDup = (Ok descs, t) /\
    dict_get Sample.fprA descs = Some Sample.relayP.
Proof.
  assert (H : forall d', In d' [Sample.relayB] ->
                         fingerprint d' <> fingerprint Sample.relayP).
  { intros d' [<-|[]]. discriminate. }
  split; [reflexivity|]. split; [exact H|].
  exact (fetch_descriptors_last_wins Sample.queryDup [Sample.relayA]
           Sample.relayP [Sample.relayB] eq_refl H).
Defined.

(** X3: an exception during the download is caught and does not discard
    what was received before it: the dictionary is the same as for a
    download that yielded the same descriptors and ended normally.  Only
    the log differs, a critical record with the exception in place of the
    record of the query time; the number of entries is logged in both
    cases. *)
Theorem fetch_descriptors_keeps_partial_download :
  forall yielded exc,
  exists descs,
    fetch_descriptors {| q_yielded := yielded; q_exception := Some exc |}
      = (Ok descs,
         [EvLog CRITICAL (LogUnableToRetrieve exc);
          EvLog INFO (LogText (downloaded_msg (List.length descs)))]) /\
    fetch_descriptors {| q_yielded := yielded; q_exception := None |}
      = (Ok descs,
         [EvLog INFO LogQueryTook;
          EvLog INFO (LogText (downloaded_msg (List.length descs)))]).
Proof.
  intros yielded exc. rewrite !fetch_descriptors_eq. cbn.
  eexists. split; reflexivity.
Qed.


(** ** The ranking *)

Lemma distance_zero_eq a b : Levenshtein.distance a b = 0 -> a = b.
Proof.
  unfold Levenshtein.distance. intros H.
  apply list_ascii_of_string_inj.
  apply (LevenshteinFacts.distance_list_zero _ _ ascii_eqb_eq _ _ H).
Qed.

Lemma distance_same a : Levenshtein.distance a a = 0.
Proof.
  unfold Levenshtein.distance.
  apply LevenshteinFacts.distance_list_refl, ascii_eqb_eq.
Qed.

Lemma distance_table_In reference descs fpr n :
  NoDup (map fst descs) ->
  In (fpr, n) (distance_table reference descs) <->
  exists desc,
    dict_get fpr descs = Some desc /\
    n = Levenshtein.distance (canonical reference) (canonical desc).
Proof.
  intros Hnd. unfold distance_table. rewrite in_map_iff. split.
  - intros ([k desc] & [= <- <-] & Hin). exists desc.
    split; [apply In_dict_get; assumption | reflexivity].
  - intros (desc & Hget & ->). exists (fpr, desc).
    split; [reflexivity | apply dict_get_In, Hget].
Qed.

Lemma ranking_In query descs reference ranking fpr n :
  fst (fetch_descriptors query) = Ok descs ->
  ranking_of reference descs ranking ->
  In (fpr, n) ranking <->
  exists desc,
    dict_get fpr descs = Some desc /\
    n = Levenshtein.distance (canonical reference) (canonical desc).
Proof.
  intros Hfetch Hrank.
  rewrite (ranking_of_table _ _ _ _ Hfetch Hrank).
  pose proof (fetched_of_query _ _ Hfetch) as [Hnd _].
  rewrite <- (distance_table_In reference descs fpr n Hnd).
  unfold sort_dists, dict_items. split; intros H.
  - apply (Permutation_in _ (sorted_perm snd _) H).
  - apply (Permutation_in _ (Permutation_sym (sorted_perm snd _)) H).
Qed.

(** X5: when the reference is found, the ranking starts with an entry of
    distance 0, and the entries of distance 0 are exactly the fetched relays
    whose canonical string is the one of the reference: the first row need
    not be the reference relay itself, but it is a relay that [to_str]
    cannot tell from it. *)
Theorem ranking_starts_with_distance_0 :
  forall query relay_fpr descs reference ranking,
    fst (fetch_descriptors query) = Ok descs ->
    dict_get relay_fpr descs = Some reference ->
    ranking_of reference descs ranking ->
    (exists fpr desc rest,
       ranking = (fpr, 0) :: rest /\
       dict_get fpr descs = Some desc /\
       canonical desc = canonical reference) /\
    (forall fpr,
       In (fpr, 0) ranking <->
       exists desc,
         dict_get fpr descs = Some desc /\
         canonical desc = canonical reference).
Proof.
  intros query relay_fpr descs reference ranking Hfetch Href Hrank.
  assert (Hzero : forall fpr,
             In (fpr, 0) ranking <->
             exists desc,
               dict_get fpr descs = Some desc /\
               canonical desc = canonical reference).
  { intros fpr. rewrite (ranking_In _ _ _ _ fpr 0 Hfetch Hrank).
    split; intros (desc & Hget & H); exists desc; (split; [exact Hget|]).
    - symmetry. apply distance_zero_eq. symmetry. exact H.
    - rewrite H. symmetry. apply distance_same. }
  split; [|exact Hzero].
  assert (Hself : In (relay_fpr, 0) ranking).
  { apply Hzero. exists reference. auto. }
  assert (Hsorted : StronglySorted (le_by snd) ranking).
  { rewrite (ranking_of_table _ _ _ _ Hfetch Hrank).
    apply Sorted_StronglySorted; [|apply (sorted_sorted snd)].
    intros x y z. unfold le_by. lia. }
  destruct ranking as [|[fpr n] rest]; [destruct Hself|].
  assert (n = 0) as ->.
  { inversion Hsorted as [|? ? _ Hall]; subst.
    destruct Hself as [[= _ ->]|Hin]; [reflexivity|].
    rewrite Forall_forall in Hall. specialize (Hall _ Hin).
    unfold le_by in Hall. cbn in Hall. lia. }
  destruct (proj1 (Hzero fpr) (or_introl eq_refl)) as (desc & Hget & Hcan).
  exists fpr, desc, rest. auto.
Qed.

Lemma ranking_starts_with_distance_0_witness :
  fst (fetch_descriptors Sample.queryABC) = Ok Sample.descsABC /\
  dict_get Sample.fprA Sample.descsABC = Some Sample.relayA /\
  ranking_of Sample.relayA Sample.descsABC
    [(Sample.fprA, 0); (Sample.fprC, 1); (Sample.fprB, 3)] /\
  exists fpr desc rest,
    [(Sample.fprA, 0); (Sample.fprC, 1); (Sample.fprB, 3)]
      = (fpr, 0) :: rest /\
    dict_get fpr Sample.descsABC = Some desc /\
    canonical desc = canonical Sample.relayA.
Proof.
  split; [reflexivity|]. split; [reflexivity|].
  split; [exact sample_ranking|].
  exact (proj1 (ranking_starts_with_distance_0 Sample.queryABC Sample.fprA
                  Sample.descsABC Sample.relayA _ eq_refl eq_refl
                  sample_ranking)).
Defined.

(** X6: [to_str] puts nothing between the fields, so it does not keep
    their boundaries: moving the end of the nickname to the front of the
    address gives the same string in both scripts, and the two descriptors
    are at distance 0 from each other. *)
Theorem to_str_forgets_field_boundaries :
  forall d nick moved addr,
    Trnns.to_str (with_nickname_address d (nick ++ moved) addr)
      = Trnns.to_str (with_nickname_address d nick (moved ++ addr)) /\
    Trnnr.to_str (with_nickname_address d (nick ++ moved) addr)
      = Trnnr.to_str (with_nickname_address d nick (moved ++ addr)) /\
    Levenshtein.distance
      (canonical (with_nickname_address d (nick ++ moved) addr))
      (canonical (with_nickname_address d nick (moved ++ addr))) = 0.
Proof.
  intros d nick moved addr.
  assert (E : canonical (with_nickname_address d (nick ++ moved) addr)
              = canonical (with_nickname_address d nick (moved ++ addr))).
  { unfold canonical, with_nickname_address.
    cbn [nickname address or_port dir_port tor_version exit_policy
         average_bandwidth burst_bandwidth observed_bandwidth
         operating_system published uptime contact].
    rewrite !append_assoc. reflexivity. }
  split; [rewrite !trnns_to_str_ok, E; reflexivity|].
  split; [rewrite !trnnr_to_str_ok, E; reflexivity|].
  rewrite E. apply distance_same.
Qed.

(** X7: [desc_to_str], and with it every row [format_desc] builds, shows
    the first eight characters of the fingerprint only, and neither the exit
    policy nor the publication time: descriptors that differ in nothing else
    give the same row. *)
Theorem desc_to_str_shows_fingerprint_prefix :
  forall colored d fpr policy time,
    take 8 fpr = take 8 (fingerprint d) ->
    Trnnr.desc_to_str (with_unshown d fpr policy time)
      = Trnnr.desc_to_str d /\
    (forall ref_desc use_colour,
       Trnnr.format_desc colored (with_unshown d fpr policy time) ref_desc
                         use_colour
       = Trnnr.format_desc colored d ref_desc use_colour).
Proof.
  intros colored d fpr policy time Hpre.
  assert (E : Trnnr.desc_to_str (with_unshown d fpr policy time)
              = Trnnr.desc_to_str d).
  { rewrite !desc_to_str_ok. unfold features, with_unshown.
    cbn [fingerprint nickname address or_port dir_port tor_version
         operating_system average_bandwidth burst_bandwidth
         observed_bandwidth uptime contact].
    rewrite Hpre. reflexivity. }
  split; [exact E|].
  intros ref_desc use_colour. unfold Trnnr.format_desc. rewrite E.
  reflexivity.
Qed.

Lemma desc_to_str_shows_fingerprint_prefix_witness :
  take 8 "AAAAAAAA0123456789ABCDEF0123456789ABCDEF"
    = take 8 (fingerprint Sample.relayA) /\
  Trnnr.desc_to_str
    (with_unshown Sample.relayA "AAAAAAAA0123456789ABCDEF0123456789ABCDEF"
                  "accept *:80" "2016-03-01 00:00:00")
    = Trnnr.desc_to_str Sample.relayA.
Proof.
  split; [reflexivity|].
  exact (proj1 (desc_to_str_shows_fingerprint_prefix Sample.colored
                  Sample.relayA "AAAAAAAA0123456789ABCDEF0123456789ABCDEF"
                  "accept *:80" "2016-03-01 00:00:00" eq_refl)).
Defined.

(** ** [format_desc] in general *)


Lemma string_length_app a b :
  String.length (a ++ b) = String.length a + String.length b.
Proof. induction a; cbn; congruence. Qed.

Lemma length_spaces n : String.length (spaces n) = n.
Proof. induction n; cbn; congruence. Qed.

Lemma length_ljust n s :
  String.length (ljust n s) = Nat.max (String.length s) n.
Proof. unfold ljust. rewrite string_length_app, length_spaces. lia. Qed.

Lemma fold_left_pointwise {A B : Type} (f g : A -> B -> A) l :
  (forall a x, f a x = g a x) ->
  forall a, fold_left f l a = fold_left g l a.
Proof.
  intros H. induction l as [|x l IH]; intros a; cbn; [reflexivity|].
  rewrite H. apply IH.
Qed.


(** X9: for descriptors without a comma in their values and without
    colours, [format_desc] returns the twelve features of the candidate, each
    with its characters unchanged and spaces added up to the length of the
    reference's feature (so as wide as the wider of the two), and one empty
    string.  With the distance in front the row has one cell more than the
    header. *)
Theorem format_desc_row_shape :
  forall colored desc ref_desc distance_cell,
    comma_free desc -> comma_free ref_desc ->
    exists cells,
      Trnnr.format_desc colored desc ref_desc false = Ok (cells ++ [""]) /\
      Forall2 (fun cell p =>
                 cell = (fst p ++ spaces (String.length (snd p)
                                          - String.length (fst p)))%string /\
                 String.length cell
                   = Nat.max (String.length (fst p)) (String.length (snd p)))
              cells (combine (features desc) (features ref_desc)) /\
      List.length cells = 12 /\
      List.length (distance_cell :: cells ++ [""])
        = S (List.length Trnnr.header).
Proof.
  intros colored desc ref_desc distance_cell Hd Hr.
  rewrite (format_desc_plain colored desc ref_desc Hd Hr).
  eexists. split; [reflexivity|]. split; [|split].
  - generalize (combine (features desc) (features ref_desc)).
    induction l as [|p l IH]; cbn [map]; constructor; [|exact IH].
    split; [reflexivity | apply length_ljust].
  - reflexivity.
  - reflexivity.
Qed.

Lemma format_desc_row_shape_witness :
  comma_free Sample.relayC /\ comma_free Sample.relayB /\
  exists cells,
    Trnnr.format_desc Sample.colored Sample.relayC Sample.relayB false
      = Ok (cells ++ [""]) /\
    List.length cells = 12.
Proof.
  assert (HC : comma_free Sample.relayC) by (repeat split).
  assert (HB : comma_free Sample.relayB) by (repeat split).
  split; [exact HC|]. split; [exact HB|].
  destruct (format_desc_row_shape Sample.colored Sample.relayC Sample.relayB
              "  2" HC HB) as (cells & H1 & _ & H2 & _).
  exists cells. auto.
Defined.

(** X10: the colour flag only adds markup.  If the colouring function
    returns its text unchanged, [format_desc] with colours returns what it
    returns without. *)
Theorem format_desc_colour_only_marks :
  forall colored desc ref_desc,
    Trnnr.format_desc (fun text _ => text) desc ref_desc true
    = Trnnr.format_desc colored desc ref_desc false.
Proof.
  intros colored desc ref_desc. unfold Trnnr.format_desc.
  destruct (Trnnr.desc_to_str desc) as [s|e]; [|reflexivity].
  destruct (Trnnr.desc_to_str ref_desc) as [r|e]; [|reflexivity].
  f_equal. f_equal. apply fold_left_pointwise.
  intros acc [f rf]. unfold Trnnr.format_field. f_equal.
  apply fold_left_pointwise. intros a [[c|] [rc|]]; cbn; try reflexivity.
  rewrite andb_false_r. destruct (Ascii.eqb c rc); reflexivity.
Qed.

Section ColourFormat.

Variable colored : string -> string -> string.
Hypothesis colored_ok : comma_free_colouring colored.

Lemma highlight_fold use_colour l : forall acc,
  fold_left (fun acc q => acc ++ Trnnr.format_char colored use_colour q)%string
            l acc
  = (acc ++ concat_str (map (Trnnr.format_char colored use_colour) l))%string.
Proof.
  induction l as [|q l IH]; intros acc; cbn.
  - rewrite append_nil_r. reflexivity.
  - rewrite IH, append_assoc. reflexivity.
Qed.

Lemma highlight_fields use_colour pairs : forall acc,
  fold_left (Trnnr.format_field colored use_colour) pairs acc
  = (acc ++ concat_str
       (map (fun s => s ++ ",") (map (highlight colored use_colour) pairs)))
    %string.
Proof.
  induction pairs as [|[f r] pairs IH]; intros acc.
  - cbn. rewrite append_nil_r. reflexivity.
  - cbn [fold_left map concat_str]. rewrite IH.
    unfold Trnnr.format_field, highlight. cbn [fst snd].
    rewrite highlight_fold, !append_assoc. reflexivity.
Qed.

Lemma highlight_blank use_colour r :
  has_comma
    (concat_str
       (map (Trnnr.format_char colored use_colour)
            (map (fun d => (None, Some d)) (list_ascii_of_string r))))
  = false.
Proof. induction r as [|d r IH]; cbn; [reflexivity|exact IH]. Qed.

Lemma highlight_comma_free use_colour f : forall r,
  has_comma f = false ->
  has_comma (highlight colored use_colour (f, r)) = false.
Proof.
  unfold highlight. cbn [fst snd].
  induction f as [|c f IH]; intros r Hf.
  - cbn [zip_longest]. apply highlight_blank.
  - cbn in Hf. apply orb_false_iff in Hf. destruct Hf as [Hc Hf].
    destruct r as [|d r]; cbn [zip_longest map concat_str];
      rewrite has_comma_app, (IH _ Hf), orb_false_r.
    + cbn. rewrite Hc. reflexivity.
    + cbn [Trnnr.format_char].
      destruct (Ascii.eqb c d && use_colour).
      * apply colored_ok, Hc.
      * cbn. rewrite Hc. reflexivity.
Qed.

Lemma highlight_self f :
  highlight colored true (f, f)
  = concat_str (map (fun c => colored (String c "") "red")
                    (list_ascii_of_string f)).
Proof.
  unfold highlight. cbn [fst snd].
  induction f as [|c f IH]; [reflexivity|].
  cbn [zip_longest map concat_str list_ascii_of_string Trnnr.format_char].
  rewrite Ascii.eqb_refl, IH. reflexivity.
Qed.

End ColourFormat.

(** X11: with a colouring function that adds no comma, and descriptors
    without a comma in their values, [format_desc] keeps its shape when
    colours are on: twelve cells, one per feature, and the empty string.
    Each cell is what the inner loop makes of the feature and the
    reference's feature; comparing a feature with itself colours each of its
    characters. *)
Theorem format_desc_colour_keeps_shape :
  forall colored desc ref_desc use_colour,
    comma_free_colouring colored ->
    comma_free desc -> comma_free ref_desc ->
    Trnnr.format_desc colored desc ref_desc use_colour
      = Ok (map (highlight colored use_colour)
                (combine (features desc) (features ref_desc)) ++ [""]) /\
    List.length (map (highlight colored use_colour)
                     (combine (features desc) (features ref_desc))) = 12 /\
    (forall f,
       highlight colored true (f, f)
       = concat_str (map (fun c => colored (String c "") "red")
                         (list_ascii_of_string f))).
Proof.
  intros colored desc ref_desc use_colour Hcol Hd Hr.
  split; [|split; [reflexivity | apply highlight_self]].
  unfold Trnnr.format_desc. rewrite !desc_to_str_ok.
  rewrite !split_join;
    try (apply features_comma_free; assumption); try discriminate.
  rewrite highlight_fields. cbn [append]. f_equal.
  apply split_terminated.
  apply Forall_forall. intros s Hs. apply in_map_iff in Hs.
  destruct Hs as ([f r] & <- & Hin).
  apply (highlight_comma_free colored Hcol).
  apply in_combine_l in Hin.
  pose proof (features_comma_free desc Hd) as Hall.
  rewrite Forall_forall in Hall. apply Hall, Hin.
Qed.

Lemma sample_colouring : comma_free_colouring Sample.colored.
Proof.
  intros c colour Hc. unfold Sample.colored. cbn. rewrite Hc. reflexivity.
Defined.

Lemma format_desc_colour_keeps_shape_witness :
  comma_free_colouring Sample.colored /\
  comma_free Sample.relayC /\ comma_free Sample.relayB /\
  Trnnr.format_desc Sample.colored Sample.relayC Sample.relayB true
    = Ok (map (highlight Sample.colored true)
              (combine (features Sample.relayC) (features Sample.relayB))
          ++ [""]).
Proof.
  assert (HC : comma_free Sample.relayC) by (repeat split).
  assert (HB : comma_free Sample.relayB) by (repeat split).
  split; [exact sample_colouring|]. split; [exact HC|]. split; [exact HB|].
  exact (proj1 (format_desc_colour_keeps_shape Sample.colored Sample.relayC
                  Sample.relayB true sample_colouring HC HB)).
Defined.

(** ** Progress records of the first loop *)

Lemma format_processed_eq i :
  format "Processed %d descriptors." [VInt i] = Ok (progress_msg i).
Proof. reflexivity. Qed.

Lemma logs_app t1 t2 : logs (t1 ++ t2) = logs t1 ++ logs t2.
Proof.
  induction t1 as [|[| |s] t1 IH]; cbn; try exact IH.
  - reflexivity.
  - rewrite IH. reflexivity.
Qed.

Lemma zrange_In j n : forall i,
  In j (zrange i n) <-> (i <= j < i + Z.of_nat n)%Z.
Proof.
  induction n as [|n IH]; intros i; cbn [zrange In].
  - lia.
  - rewrite IH. lia.
Qed.

Section ProgressFacts.

Variable to_str : Descriptor -> result string.
Hypothesis to_str_ok : forall d, to_str d = Ok (canonical d).

Lemma rank_loop_logs ref items : forall i acc,
  logs (snd (rank_loop to_str ref i items acc)) =
  map (fun j => (INFO, LogText (progress_msg j)))
      (filter (fun j => (j mod 1000 =? 0)%Z)
              (zrange i (List.length items))).
Proof.
  induction items as [|[k desc] items IH]; intros i acc.
  - reflexivity.
  - cbn [rank_loop List.length zrange filter].
    rewrite to_str_ok, bind_lift_ok, call_distance_eq, bind_ok.
    cbn [snd]. rewrite logs_app. cbn [logs app].
    destruct (i mod 1000 =? 0)%Z.
    + rewrite format_processed_eq, bind_lift_ok. unfold log_info.
      rewrite bind_emit. cbn [snd logs map]. rewrite IH. reflexivity.
    + rewrite bind_ret, IH. reflexivity.
Qed.

End ProgressFacts.

(** X12: while it fills the distance table, the first loop logs
    "Processed i descriptors." for the indexes i = 0, 1000, 2000, ... below
    the number of descriptors, in this order, and logs nothing else. *)
Theorem rank_logs_every_1000 :
  forall reference descs,
    logs (snd (rank Trnns.to_str (canonical reference) descs)) =
      map (fun i => (INFO, LogText (progress_msg i)))
          (filter (fun i => (i mod 1000 =? 0)%Z)
                  (zrange 0 (List.length descs))) /\
    logs (snd (rank Trnnr.to_str (canonical reference) descs)) =
      logs (snd (rank Trnns.to_str (canonical reference) descs)) /\
    (forall i,
       In i (filter (fun i => (i mod 1000 =? 0)%Z)
                    (zrange 0 (List.length descs))) <->
       (0 <= i < Z.of_nat (List.length descs))%Z /\ (i mod 1000 = 0)%Z).
Proof.
  intros reference descs. unfold rank, dict_items.
  rewrite (rank_loop_logs Trnns.to_str trnns_to_str_ok).
  rewrite (rank_loop_logs Trnnr.to_str trnnr_to_str_ok).
  split; [reflexivity|]. split; [reflexivity|].
  intros i. rewrite filter_In, zrange_In, Z.eqb_eq. lia.
Qed.

(** ** [print_desc] *)




(** ** The reference in its own ranking *)

Lemma ranking_strongly_sorted query descs reference ranking :
  fst (fetch_descriptors query) = Ok descs ->
  ranking_of reference descs ranking ->
  StronglySorted (le_by snd) ranking.
Proof.
  intros Hfetch Hrank. rewrite (ranking_of_table _ _ _ _ Hfetch Hrank).
  apply Sorted_StronglySorted; [|apply (sorted_sorted snd)].
  intros x y z. unfold le_by. lia.
Qed.

(** X14: if no other fetched relay has the canonical string of the
    reference, the reference is the first entry of the ranking, with
    distance 0, and every entry after it has a distance above 0. *)
Theorem unique_reference_ranks_first :
  forall query relay_fpr descs reference ranking,
    fst (fetch_descriptors query) = Ok descs ->
    dict_get relay_fpr descs = Some reference ->
    ranking_of reference descs ranking ->
    (forall fpr desc,
       dict_get fpr descs = Some desc ->
       canonical desc = canonical reference -> fpr = relay_fpr) ->
    exists rest,
      ranking = (relay_fpr, 0) :: rest /\
      Forall (fun e => 0 < snd e) rest.
Proof.
  intros query relay_fpr descs reference ranking Hfetch Href Hrank Huniq.
  pose proof (ranking_strongly_sorted _ _ _ _ Hfetch Hrank) as Hsorted.
  destruct (ranking_keys _ _ _ _ Hfetch Hrank) as (_ & Hnd & _).
  assert (Hzero : forall fpr, In (fpr, 0) ranking -> fpr = relay_fpr).
  { intros fpr Hin.
    apply (ranking_In _ _ _ _ fpr 0 Hfetch Hrank) in Hin.
    destruct Hin as (desc & Hget & Hd).
    apply (Huniq fpr desc Hget). symmetry.
    apply distance_zero_eq. symmetry. exact Hd. }
  assert (Hself : In (relay_fpr, 0) ranking).
  { apply (ranking_In _ _ _ _ relay_fpr 0 Hfetch Hrank).
    exists reference. split; [exact Href|]. symmetry. apply distance_same. }
  destruct ranking as [|[fpr n] rest]; [destruct Hself|].
  inversion Hsorted as [|? ? _ Hall]; subst.
  rewrite Forall_forall in Hall.
  assert (n = 0) as ->.
  { destruct Hself as [[= _ ->]|Hin]; [reflexivity|].
    specialize (Hall _ Hin). unfold le_by in Hall. cbn in Hall. lia. }
  assert (fpr = relay_fpr) as -> by (apply Hzero; left; reflexivity).
  exists rest. split; [reflexivity|].
  apply Forall_forall. intros [fpr' n'] Hin. cbn [snd].
  destruct n' as [|n']; [|lia]. exfalso.
  assert (fpr' = relay_fpr) as -> by (apply Hzero; right; exact Hin).
  cbn [map fst] in Hnd. inversion Hnd as [|? ? Hnotin _]; subst.
  apply Hnotin. apply (in_map fst) in Hin. exact Hin.
Qed.

Lemma sample_reference_unique :
  forall fpr desc,
    dict_get fpr Sample.descsABC = Some desc ->
    canonical desc = canonical Sample.relayA -> fpr = Sample.fprA.
Proof.
  intros fpr desc. unfold Sample.descsABC. cbn [dict_get].
  destruct (String.eqb_spec fpr Sample.fprA) as [->|_]; [reflexivity|].
  destruct (String.eqb fpr Sample.fprB).
  - intros [= <-] H. vm_compute in H. discriminate H.
  - destruct (String.eqb fpr Sample.fprC); [|discriminate].
    intros [= <-] H. vm_compute in H. discriminate H.
Defined.

Lemma unique_reference_ranks_first_witness :
  fst (fetch_descriptors Sample.queryABC) = Ok Sample.descsABC /\
  dict_get Sample.fprA Sample.descsABC = Some Sample.relayA /\
  ranking_of Sample.relayA Sample.descsABC
    [(Sample.fprA, 0); (Sample.fprC, 1); (Sample.fprB, 3)] /\
  (forall fpr desc,
     dict_get fpr Sample.descsABC = Some desc ->
     canonical desc = canonical Sample.relayA -> fpr = Sample.fprA) /\
  exists rest,
    [(Sample.fprA, 0); (Sample.fprC, 1); (Sample.fprB, 3)]
      = (Sample.fprA, 0) :: rest /\
    Forall (fun e => 0 < snd e) rest.
Proof.
  split; [reflexivity|]. split; [reflexivity|].
  split; [exact sample_ranking|]. split; [exact sample_reference_unique|].
  exact (unique_reference_ranks_first Sample.queryABC Sample.fprA
           Sample.descsABC Sample.relayA _ eq_refl eq_refl sample_ranking
           sample_reference_unique).
Defined.
